(** * Kathara event dispatcher: a shallow embedding of
    [src/Kathara/event/EventDispatcher.py] and the properties of its
    registry.

    The Python class keeps one dictionary, [events], from event names to
    lists of pairs [(run_callback, unregister_callback)].  Its methods
    mutate that dictionary, call the stored callbacks and may raise.  The
    embedding is a state-and-exception monad over an explicit world: the
    dictionary is a [gmap], a raised exception leaves every mutation made
    before it in place (as in Python), and each callback invocation is
    appended to a log of calls.

    What a callback does is not part of the class.  A callback is taken as
    an opaque bound method whose invocation is logged and which either
    returns or raises, as decided by an arbitrary function [outcome] of the
    calls made so far; callbacks do not call back into the dispatcher. *)

From stdpp Require Import gmap strings list fin_maps.

Open Scope string_scope.
Open Scope list_scope.

(* ------------------------------------------------------------------ *)
(** ** Exceptions and the state-and-exception monad *)

(** The exceptions the class can raise or let through: [InstantiationError]
    from [__init__], [AttributeError] from [getattr], [KeyError] from a
    dictionary subscript, and whatever a callback raises. *)
Inductive Exn : Type :=
  | InstantiationError (msg : string)
  | AttributeError (name : string)
  | KeyError (key : string)
  | CallbackError (code : nat).

Inductive Res (A : Type) : Type :=
  | Ok (a : A)
  | Raise (e : Exn).
Arguments Ok {A} a.
Arguments Raise {A} e.

(** A computation over a state [S]: it ends with a value or an exception,
    and in both cases with the state it has reached. *)
Definition M (S A : Type) : Type := S -> Res A * S.

Definition ret {S A} (a : A) : M S A := fun s => (Ok a, s).

Definition raise {S A} (e : Exn) : M S A := fun s => (Raise e, s).

Definition bind {S A B} (c : M S A) (k : A -> M S B) : M S B :=
  fun s =>
    match c s with
    | (Ok a, s') => k a s'
    | (Raise e, s') => (Raise e, s')
    end.

Declare Scope py_scope.
Delimit Scope py_scope with py.
Notation "x <- c1 ;; c2" := (bind c1 (fun x => c2))
  (at level 100, c1 at next level, right associativity) : py_scope.
Notation "c1 ;; c2" := (bind c1 (fun _ => c2))
  (at level 100, right associativity) : py_scope.
Open Scope py_scope.

(** A Python [for x in l: body(x)] whose body may raise. *)
Fixpoint for_each {S A} (l : list A) (body : A -> M S unit) : M S unit :=
  match l with
  | [] => ret tt
  | x :: l' => body x ;; for_each l' body
  end.

(* ------------------------------------------------------------------ *)
(** ** Data model *)

(** Values passed as keyword arguments. *)
Inductive PyVal : Type :=
  | PyInt (z : Z)
  | PyStr (s : string).

(** Keyword arguments: names and values in the order they were given. *)
Definition Kwargs : Type := list (string * PyVal).

(** A subscriber: an object with an identity and the names of the
    attributes it exposes.  The registry's declared entry type is
    [Tuple[Callable, Optional[Callable]]], so the attributes are methods. *)
Record PyObject : Type := mkObject {
  oid : nat;
  attrs : list string
}.

(** A bound method [obj.name], as [getattr(obj, name)] returns it. *)
Record Callable : Type := BoundMethod {
  cb_self : nat;
  cb_name : string
}.

(** One element of [self.events[event]]: [(run_callback,
    unregister_callback)], the second being [None] when the subscriber has
    no [unregister] attribute. *)
Definition Entry : Type := (Callable * option Callable)%type.

(** One callback invocation, with the keyword arguments it received. *)
Record Call : Type := mkCall {
  callee : Callable;
  call_kwargs : Kwargs
}.

(** The world the methods run in: the dispatcher's [events] slot and the
    log of callback invocations made so far. *)
Record World : Type := mkWorld {
  events : gmap string (list Entry);
  calls : list Call
}.

Definition initial_world : World := mkWorld ∅ [].

(* ------------------------------------------------------------------ *)
(** ** Python primitives used by the class *)

Definition hasattr (obj : PyObject) (name : string) : bool :=
  bool_decide (name ∈ attrs obj).

Definition getattr {S} (obj : PyObject) (name : string) : M S Callable :=
  if hasattr obj name then ret (BoundMethod (oid obj) name)
  else raise (AttributeError name).

(** Truth value of an [Optional[str]]: [None] and the empty string are
    false, every other string is true. *)
Definition truthy (method : option string) : bool :=
  match method with
  | None => false
  | Some "" => false
  | Some _ => true
  end.

(** ['run' if not method else method] *)
Definition run_or (method : option string) : string :=
  match method with
  | Some m => if negb (truthy method) then "run" else m
  | None => "run"
  end.

(** [event in self.events] *)
Definition contains (event : string) : M World bool :=
  fun w => (Ok (bool_decide (is_Some (events w !! event))), w).

(** [self.events[event]] *)
Definition getitem (event : string) : M World (list Entry) :=
  fun w =>
    match events w !! event with
    | Some l => (Ok l, w)
    | None => (Raise (KeyError event), w)
    end.

(** [self.events[event] = l] *)
Definition setitem (event : string) (l : list Entry) : M World unit :=
  fun w => (Ok tt, mkWorld (<[event := l]> (events w)) (calls w)).

(** [self.events[event].append(x)]: the list stored under [event] grows in
    place. *)
Definition append (event : string) (x : Entry) : M World unit :=
  l <- getitem event ;;
  setitem event (l ++ [x]).

(** [del self.events[event]] *)
Definition delitem (event : string) : M World unit :=
  fun w =>
    match events w !! event with
    | Some _ => (Ok tt, mkWorld (delete event (events w)) (calls w))
    | None => (Raise (KeyError event), w)
    end.

Section Dispatcher.

(** How a callback invocation ends, given the calls made before it:
    [None] when it returns, [Some e] when it raises [e]. *)
Variable outcome : list Call -> Callable -> Kwargs -> option Exn.

(** Calling [cb] with the keyword arguments [kwargs]: the invocation is
    logged, then it returns or raises. *)
Definition call (cb : Callable) (kwargs : Kwargs) : M World unit :=
  fun w =>
    let w' := mkWorld (events w) (calls w ++ [mkCall cb kwargs]) in
    match outcome (calls w) cb kwargs with
    | None => (Ok tt, w')
    | Some e => (Raise e, w')
    end.

(* ------------------------------------------------------------------ *)
(** ** The methods of [EventDispatcher] *)

Definition get_subscribers (event : string) : M World (list Callable) :=
  l <- getitem event ;;
  ret (map fst l).

(** The receiver [self.events[event]] of [append] is evaluated before the
    tuple that is appended, and the tuple's notify callback before its
    teardown callback. *)
Definition register (event : string) (obj : PyObject)
    (method : option string) : M World unit :=
  present <- contains event ;;
  (if negb present then setitem event [] else ret tt) ;;
  _ <- getitem event ;;
  run_callback <- getattr obj (run_or method) ;;
  unregister_callback <-
    (if hasattr obj "unregister"
     then cb <- getattr obj "unregister" ;; ret (Some cb)
     else ret None) ;;
  append event (run_callback, unregister_callback).

Definition dispatch (event : string) (kwargs : Kwargs) : M World unit :=
  present <- contains event ;;
  if negb present then ret tt
  else
    l <- getitem event ;;
    for_each l (fun '(run_callback, _) => call run_callback kwargs).

Definition unregister (event : string) : M World unit :=
  present <- contains event ;;
  if negb present then ret tt
  else
    l <- getitem event ;;
    for_each l (fun '(_, unregister_callback) =>
                  match unregister_callback with
                  | Some cb => call cb []
                  | None => ret tt
                  end) ;;
    delitem event.

(* ------------------------------------------------------------------ *)
(** ** Client programs: sequences of calls on one dispatcher *)

Inductive Op : Type :=
  | OpRegister (event : string) (obj : PyObject) (method : option string)
  | OpDispatch (event : string) (kwargs : Kwargs)
  | OpUnregister (event : string).

Definition run_op (o : Op) : M World unit :=
  match o with
  | OpRegister event obj method => register event obj method
  | OpDispatch event kwargs => dispatch event kwargs
  | OpUnregister event => unregister event
  end.

(** The caller goes on after a call that raised: the world a failed call
    leaves behind is the one the next call starts from. *)
Definition exec (ops : list Op) (w : World) : World :=
  fold_left (fun w o => snd (run_op o w)) ops w.

Definition reachable (w : World) : Prop :=
  exists ops, exec ops initial_world = w.

End Dispatcher.

(** Registering the same subscriber [k] times in a row. *)
Fixpoint repeat_call {S} (k : nat) (c : M S unit) : M S unit :=
  match k with
  | O => ret tt
  | S k' => c ;; repeat_call k' c
  end.

(* ------------------------------------------------------------------ *)
(** ** Vocabulary of the properties *)

(** The entries registered for an event; none when the name is unknown. *)
Definition entries_of (w : World) (event : string) : list Entry :=
  default [] (events w !! event).

(** The invocations a complete dispatch makes: one per entry, in the order
    of the list, each with the keyword arguments of the dispatch. *)
Definition notify_calls (kwargs : Kwargs) (l : list Entry) : list Call :=
  map (fun e => mkCall (fst e) kwargs) l.

(** The call an unregistration makes for an entry: its teardown callback
    without arguments, or nothing when the entry has none. *)
Definition teardown_call (e : Entry) : option Call :=
  option_map (fun cb => mkCall cb []) (snd e).

(** The invocations a complete unregistration makes: one per entry that has
    a teardown callback, in the order of the list, without arguments. *)
Definition teardown_calls (l : list Entry) : list Call :=
  omap teardown_call l.

(** The call a dispatch makes for an entry. *)
Definition notify_call (kwargs : Kwargs) (e : Entry) : option Call :=
  Some (mkCall (fst e) kwargs).

(** Every key of the mapping holds at least one entry. *)
Definition no_empty_list (w : World) : Prop :=
  forall event l, events w !! event = Some l -> l <> [].

(* ------------------------------------------------------------------ *)
(** ** The singleton: class attribute and allocated instances *)

(** The class state: the class attribute [__instance] (an address, or
    [None]) and, for every [EventDispatcher] object allocated so far, its
    [events] slot, which is unset until [__init__] assigns it.  An object's
    address is its index. *)
Record Process : Type := mkProcess {
  __instance : option nat;
  heap : list (option (gmap string (list Entry)))
}.

(** [object.__new__]: a fresh object whose slot is not yet assigned. *)
Definition new : M Process nat :=
  fun p => (Ok (length (heap p)), mkProcess (__instance p) (heap p ++ [None])).

Definition read_instance : M Process (option nat) :=
  fun p => (Ok (__instance p), p).

Definition write_instance (v : option nat) : M Process unit :=
  fun p => (Ok tt, mkProcess v (heap p)).

(** [self.events = m] *)
Definition write_events (self : nat) (m : gmap string (list Entry))
    : M Process unit :=
  fun p => (Ok tt, mkProcess (__instance p) (<[self := Some m]> (heap p))).

Definition __init__ (self : nat) : M Process unit :=
  inst <- read_instance ;;
  match inst with
  | Some _ => raise (InstantiationError "This class is a singleton!")
  | None =>
      write_events self ∅ ;;
      write_instance (Some self)
  end.

(** The constructor call [EventDispatcher()]. *)
Definition EventDispatcher : M Process nat :=
  self <- new ;;
  __init__ self ;;
  ret self.

Definition get_instance : M Process (option nat) :=
  inst <- read_instance ;;
  (match inst with
   | None => _ <- EventDispatcher ;; ret tt
   | Some _ => ret tt
   end) ;;
  read_instance.

(** The class attribute, when set, points at an allocated object. *)
Definition well_formed (p : Process) : Prop :=
  match __instance p with
  | Some l => l < length (heap p)
  | None => True
  end.

Inductive ClassCall : Type :=
  | CallGetInstance
  | CallConstructor.

Definition run_class_call (c : ClassCall) : M Process (option nat) :=
  match c with
  | CallGetInstance => get_instance
  | CallConstructor => self <- EventDispatcher ;; ret (Some self)
  end.

Fixpoint run_class_calls (cs : list ClassCall) (p : Process)
    : list (Res (option nat)) * Process :=
  match cs with
  | [] => ([], p)
  | c :: cs' =>
      let '(r, p') := run_class_call c p in
      let '(rs, p'') := run_class_calls cs' p' in
      (r :: rs, p'')
  end.

(** The body of a loop that calls at most one callback per entry. *)
Definition maybe_call (outcome : list Call -> Callable -> Kwargs -> option Exn)
    (f : Entry -> option Call) (x : Entry) : M World unit :=
  match f x with
  | Some c => call outcome (callee c) (call_kwargs c)
  | None => ret tt
  end.

(* ------------------------------------------------------------------ *)
(** ** Concrete subscribers, behaviours and worlds *)

#[global] Instance Callable_eq_dec : EqDecision Callable.
Proof. solve_decision. Defined.

(** A subscriber with the default capability and no teardown. *)
Definition logger : PyObject := mkObject 1 ["run"].

(** A subscriber with a named capability and a teardown. *)
Definition builder : PyObject := mkObject 2 ["handle"; "unregister"].

(** A subscriber with the default capability and a teardown. *)
Definition cache : PyObject := mkObject 3 ["run"; "unregister"].

(** An object that can be torn down but has nothing to run. *)
Definition mute : PyObject := mkObject 4 ["unregister"].

(** Every callback returns. *)
Definition always_returns : list Call -> Callable -> Kwargs -> option Exn :=
  fun _ _ _ => None.

(** The callback [cb] raises whenever it is called; the others return. *)
Definition fails_on (cb : Callable)
    : list Call -> Callable -> Kwargs -> option Exn :=
  fun _ c _ => if decide (c = cb) then Some (CallbackError 1) else None.

(** The second callback invocation of the whole run raises; every other
    one returns. *)
Definition fails_second_call : list Call -> Callable -> Kwargs -> option Exn :=
  fun t _ _ => if decide (length t = 1) then Some (CallbackError 2) else None.

Definition status_ok : Kwargs := [("status", PyStr "ok")].

(** ["build.done"] with [logger], [builder] and [cache] registered in that
    order, and ["deploy"] with [cache] alone. *)
Definition busy_world : World :=
  mkWorld
    (<["deploy" := [(BoundMethod 3 "run", Some (BoundMethod 3 "unregister"))]]>
     (<["build.done" :=
          [(BoundMethod 1 "run", None);
           (BoundMethod 2 "handle", Some (BoundMethod 2 "unregister"));
           (BoundMethod 3 "run", Some (BoundMethod 3 "unregister"))]]> ∅))
    [].

(* ------------------------------------------------------------------ *)
(** ** Registrations in a run, and the dispatcher as a shared object *)

(** The entry [register] builds for a subscriber: the bound notify method
    and, if the subscriber has an [unregister] attribute, that bound
    method. *)
Definition entry_of (obj : PyObject) (method : option string) : Entry :=
  (BoundMethod (oid obj) (run_or method),
   if hasattr obj "unregister"
   then Some (BoundMethod (oid obj) "unregister") else None).

(** The entry a call adds to the list of [event]: one for a registration
    under that name whose notify capability exists, none otherwise. *)
Definition registration (event : string) (o : Op) : option Entry :=
  match o with
  | OpRegister e obj method =>
      if decide (e = event)
      then (if hasattr obj (run_or method)
            then Some (entry_of obj method) else None)
      else None
  | _ => None
  end.

(** Every allocated object whose [events] slot has been assigned is the
    one the class attribute points at. *)
Definition sole_instance (p : Process) : Prop :=
  forall l m, heap p !! l = Some (Some m) -> __instance p = Some l.

(** The class attribute, when set, points at an object whose [events] slot
    has been assigned. *)
Definition ready (p : Process) : Prop :=
  match __instance p with
  | Some l => exists m, heap p !! l = Some (Some m)
  | None => True
  end.

(** The mapping of the current singleton; empty when there is none. *)
Definition instance_events (p : Process) : gmap string (list Entry) :=
  match __instance p with
  | Some l =>
      match heap p !! l with
      | Some (Some m) => m
      | _ => ∅
      end
  | None => ∅
  end.

(** A whole program: the class state and the log of callback
    invocations. *)
Record Program : Type := mkProgram {
  process : Process;
  log : list Call
}.

(** A class-level call made by the program. *)
Definition on_class {A} (c : M Process A) : M Program A :=
  fun s =>
    let '(r, p') := c (process s) in
    (r, mkProgram p' (log s)).

(** A method call [target.name(...)].  On [None] the attribute lookup
    raises.  On an object, the method body runs on that object's [events]
    slot and what it leaves there stays, whether it returns or raises;
    reading a slot that was never assigned raises. *)
Definition call_method {A} (target : option nat) (name : string)
    (body : M World A) : M Program A :=
  fun s =>
    match target with
    | None => (Raise (AttributeError name), s)
    | Some self =>
        match heap (process s) !! self with
        | Some (Some m) =>
            let '(r, w') := body (mkWorld m (log s)) in
            (r, mkProgram
                  (mkProcess (__instance (process s))
                             (<[self := Some (events w')]> (heap (process s))))
                  (calls w'))
        | _ => (Raise (AttributeError "events"), s)
        end
    end.

(** [EventDispatcher.get_instance().register(event, obj, method)] *)
Definition shared_register (event : string) (obj : PyObject)
    (method : option string) : M Program unit :=
  self <- on_class get_instance ;;
  call_method self "register" (register event obj method).

(** [EventDispatcher.get_instance().get_subscribers(event)] *)
Definition shared_get_subscribers (event : string)
    : M Program (list Callable) :=
  self <- on_class get_instance ;;
  call_method self "get_subscribers" (get_subscribers event).

(* ------------------------------------------------------------------ *)
(** ** Basic facts about the primitives *)

Lemma contains_Some (event : string) (w : World) (l : list Entry) :
  events w !! event = Some l -> contains event w = (Ok true, w).
Proof. intros H. unfold contains. by rewrite H. Qed.

Lemma contains_None (event : string) (w : World) :
  events w !! event = None -> contains event w = (Ok false, w).
Proof. intros H. unfold contains. by rewrite H. Qed.

Lemma world_eta (w : World) : mkWorld (events w) (calls w) = w.
Proof. by destruct w. Qed.

Lemma for_each_ext {S A} (l : list A) (b1 b2 : A -> M S unit) (s : S) :
  (forall x s', b1 x s' = b2 x s') -> for_each l b1 s = for_each l b2 s.
Proof.
  intros Hext. revert s.
  induction l as [|x l IH]; intros s; simpl; [done|].
  unfold bind. rewrite Hext.
  destruct (b2 x s) as [[a|e] s']; [apply IH | done].
Qed.

Lemma omap_total {A B} (g : A -> B) (l : list A) :
  omap (fun x => Some (g x)) l = map g l.
Proof. induction l as [|x l IH]; csimpl; [done | by rewrite IH]. Qed.

(* ------------------------------------------------------------------ *)
(** ** The callback loops *)

Section Loops.

Variable outcome : list Call -> Callable -> Kwargs -> option Exn.

Lemma loop_skip (f : Entry -> option Call) (x : Entry) (l : list Entry)
    (w : World) :
  f x = None ->
  for_each (x :: l) (maybe_call outcome f) w
  = for_each l (maybe_call outcome f) w.
Proof. intros Hfx. simpl. unfold bind, maybe_call at 1. by rewrite Hfx. Qed.

Lemma loop_returns (f : Entry -> option Call) (x : Entry) (l : list Entry)
    (w : World) (c : Call) :
  f x = Some c ->
  outcome (calls w) (callee c) (call_kwargs c) = None ->
  for_each (x :: l) (maybe_call outcome f) w
  = for_each l (maybe_call outcome f) (mkWorld (events w) (calls w ++ [c])).
Proof.
  intros Hfx Hout. simpl. unfold bind, maybe_call at 1, call.
  rewrite Hfx, Hout. by destruct c.
Qed.

Lemma loop_raises (f : Entry -> option Call) (x : Entry) (l : list Entry)
    (w : World) (c : Call) (e : Exn) :
  f x = Some c ->
  outcome (calls w) (callee c) (call_kwargs c) = Some e ->
  for_each (x :: l) (maybe_call outcome f) w
  = (Raise e, mkWorld (events w) (calls w ++ [c])).
Proof.
  intros Hfx Hout. simpl. unfold bind, maybe_call at 1, call.
  rewrite Hfx, Hout. by destruct c.
Qed.

(** A loop of callbacks never touches the mapping.  When it completes it
    has made every call of the list, in order; when it raises it has made
    the calls up to the raising one, and that one last. *)
Lemma callback_loop (f : Entry -> option Call) (l : list Entry) (w : World) :
  let r := for_each l (maybe_call outcome f) w in
  events (snd r) = events w /\
  match fst r with
  | Ok _ => calls (snd r) = calls w ++ omap f l
  | Raise e =>
      exists l1 x l2 c,
        l = l1 ++ x :: l2 /\ f x = Some c /\
        calls (snd r) = calls w ++ omap f l1 ++ [c] /\
        outcome (calls w ++ omap f l1) (callee c) (call_kwargs c) = Some e
  end.
Proof.
  revert w. induction l as [|x l IH]; intros w.
  - simpl. split; [done|]. by rewrite app_nil_r.
  - destruct (f x) as [c|] eqn:Hfx.
    + destruct (outcome (calls w) (callee c) (call_kwargs c)) as [e|] eqn:Hout.
      * cbv zeta. rewrite (loop_raises f x l w c e Hfx Hout). simpl.
        split; [done|]. exists [], x, l, c. csimpl.
        by rewrite app_nil_r.
      * cbv zeta. rewrite (loop_returns f x l w c Hfx Hout).
        specialize (IH (mkWorld (events w) (calls w ++ [c]))).
        cbv zeta in IH. simpl in IH. destruct IH as [IHe IHc].
        split; [done|].
        destruct (fst (for_each l (maybe_call outcome f) _)) as [u|e].
        -- csimpl. rewrite Hfx. by rewrite IHc, <- app_assoc.
        -- destruct IHc as (l1 & y & l2 & d & -> & Hfy & Hcalls & Hraise).
           exists (x :: l1), y, l2, d. csimpl. rewrite Hfx.
           split; [done|]. split; [done|].
           rewrite <- app_assoc in Hcalls, Hraise. done.
    + cbv zeta. rewrite (loop_skip f x l w Hfx).
      specialize (IH w). cbv zeta in IH. destruct IH as [IHe IHc].
      split; [done|].
      destruct (fst (for_each l (maybe_call outcome f) w)) as [u|e].
      * csimpl. by rewrite Hfx.
      * destruct IHc as (l1 & y & l2 & d & -> & Hfy & Hcalls & Hraise).
        exists (x :: l1), y, l2, d. csimpl. by rewrite Hfx.
Qed.

(** A loop none of whose callbacks raises completes. *)
Lemma callback_loop_returns (f : Entry -> option Call) (l : list Entry)
    (w : World) :
  (forall t c, c ∈ omap f l ->
               outcome t (callee c) (call_kwargs c) = None) ->
  fst (for_each l (maybe_call outcome f) w) = Ok tt.
Proof.
  intros Hnone.
  destruct (callback_loop f l w) as [_ Hc].
  destruct (fst (for_each l (maybe_call outcome f) w)) as [[]|e]; [done|].
  destruct Hc as (l1 & y & l2 & d & -> & Hfy & _ & Hraise).
  rewrite Hnone in Hraise; [done|].
  rewrite omap_app. apply elem_of_app. right. csimpl. rewrite Hfy.
  apply list_elem_of_here.
Qed.

Lemma for_each_app {S A} (l1 l2 : list A) (body : A -> M S unit) (s : S) :
  for_each (l1 ++ l2) body s
  = (for_each l1 body ;; for_each l2 body) s.
Proof.
  revert s. induction l1 as [|x l1 IH]; intros s; simpl.
  - done.
  - unfold bind. destruct (body x s) as [[u|e] s']; [|done].
    rewrite IH. done.
Qed.

(** If every callback of the loop returns when its turn comes, the loop
    completes, having made all its calls in order. *)
Lemma loop_all_return (f : Entry -> option Call) (l : list Entry)
    (w : World) :
  (forall i x c,
     l !! i = Some x -> f x = Some c ->
     outcome (calls w ++ omap f (take i l)) (callee c) (call_kwargs c)
     = None) ->
  for_each l (maybe_call outcome f) w
  = (Ok tt, mkWorld (events w) (calls w ++ omap f l)).
Proof.
  intros Hnone.
  destruct (callback_loop f l w) as [Hev Hc].
  destruct (for_each l (maybe_call outcome f) w) as [[[]|e] w'];
    simpl in *.
  - f_equal. destruct w'. simpl in *. by subst.
  - destruct Hc as (l1 & x & l2 & c & -> & Hfx & _ & Hraise).
    pose proof (Hnone (length l1) x c (list_lookup_middle l1 l2 x _ eq_refl)
                  Hfx) as Hn.
    rewrite take_app_length in Hn. congruence.
Qed.

(** If the callback of the entry at index [i] is the first to raise, the
    loop raises there: the calls of the entries up to it have been made,
    the ones after it have not. *)
Lemma loop_first_raise (f : Entry -> option Call) (l : list Entry)
    (w : World) (i : nat) (x : Entry) (c : Call) (exn : Exn) :
  l !! i = Some x ->
  f x = Some c ->
  (forall j y d,
     j < i -> l !! j = Some y -> f y = Some d ->
     outcome (calls w ++ omap f (take j l)) (callee d) (call_kwargs d)
     = None) ->
  outcome (calls w ++ omap f (take i l)) (callee c) (call_kwargs c)
  = Some exn ->
  for_each l (maybe_call outcome f) w
  = (Raise exn, mkWorld (events w) (calls w ++ omap f (take (S i) l))).
Proof.
  intros Hx Hfx Hbefore Hraise.
  rewrite <- (take_drop_middle l i x Hx) at 1.
  rewrite for_each_app. unfold bind.
  rewrite (loop_all_return f (take i l) w).
  - rewrite (loop_raises f x _
               (mkWorld (events w) (calls w ++ omap f (take i l)))
               c exn Hfx Hraise). simpl.
    rewrite (take_S_r l i x Hx), omap_app. csimpl. rewrite Hfx.
    by rewrite app_assoc.
  - intros j y d Hy Hfy.
    apply lookup_take_Some in Hy as [Hy Hj].
    rewrite take_take. replace (j `min` i) with j by lia.
    by apply (Hbefore j y d).
Qed.

End Loops.

(* ------------------------------------------------------------------ *)
(** ** [dispatch] and [unregister] as callback loops *)

Section Methods.

Variable outcome : list Call -> Callable -> Kwargs -> option Exn.

Lemma dispatch_unknown (event : string) (kwargs : Kwargs) (w : World) :
  events w !! event = None -> dispatch outcome event kwargs w = (Ok tt, w).
Proof.
  intros H. unfold dispatch, bind. by rewrite (contains_None _ _ H).
Qed.

Lemma dispatch_known (event : string) (kwargs : Kwargs) (w : World)
    (l : list Entry) :
  events w !! event = Some l ->
  dispatch outcome event kwargs w
  = for_each l (maybe_call outcome (notify_call kwargs)) w.
Proof.
  intros H. unfold dispatch, bind. rewrite (contains_Some _ _ _ H). simpl.
  unfold getitem. rewrite H. apply for_each_ext. by intros [rc td] s'.
Qed.

Lemma unregister_unknown (event : string) (w : World) :
  events w !! event = None -> unregister outcome event w = (Ok tt, w).
Proof.
  intros H. unfold unregister, bind. by rewrite (contains_None _ _ H).
Qed.

Lemma unregister_known (event : string) (w : World) (l : list Entry) :
  events w !! event = Some l ->
  unregister outcome event w
  = (for_each l (maybe_call outcome teardown_call) ;; delitem event) w.
Proof.
  intros H. unfold unregister. unfold bind at 1.
  rewrite (contains_Some _ _ _ H). simpl.
  unfold bind at 1. unfold getitem. rewrite H.
  unfold bind. erewrite for_each_ext; [done|].
  by intros [rc [cb|]] s'.
Qed.

Lemma notify_calls_omap (kwargs : Kwargs) (l : list Entry) :
  omap (notify_call kwargs) l = notify_calls kwargs l.
Proof. apply omap_total. Qed.

Lemma teardown_calls_omap (l : list Entry) :
  omap teardown_call l = teardown_calls l.
Proof. done. Qed.

Lemma entries_of_Some (w : World) (event : string) (l : list Entry) :
  events w !! event = Some l -> entries_of w event = l.
Proof. intros H. unfold entries_of. by rewrite H. Qed.

Lemma entries_of_None (w : World) (event : string) :
  events w !! event = None -> entries_of w event = [].
Proof. intros H. unfold entries_of. by rewrite H. Qed.

End Methods.

(* ------------------------------------------------------------------ *)
(** ** Unknown events, dispatch and unregistration *)

Section Delivery.

Variable outcome : list Call -> Callable -> Kwargs -> option Exn.

(** For an event name that is not a key of the mapping,
    [get_subscribers] raises [KeyError] (the not-found error of the
    specification), while [dispatch] and [unregister] return normally,
    call nothing and leave the world as it was. *)
Lemma unknown_event_asymmetry (event : string) (kwargs : Kwargs)
    (w : World) :
  events w !! event = None ->
  get_subscribers event w = (Raise (KeyError event), w) /\
  dispatch outcome event kwargs w = (Ok tt, w) /\
  unregister outcome event w = (Ok tt, w).
Proof.
  intros H. split; [|split].
  - unfold get_subscribers, bind, getitem. by rewrite H.
  - by apply dispatch_unknown.
  - by apply unregister_unknown.
Qed.

(** [dispatch] of a known event whose notify callbacks all return when
    their turn comes. *)
Lemma dispatch_all_return (event : string) (kwargs : Kwargs) (w : World)
    (l : list Entry) :
  events w !! event = Some l ->
  (forall i x,
     l !! i = Some x ->
     outcome (calls w ++ notify_calls kwargs (take i l)) (fst x) kwargs
     = None) ->
  dispatch outcome event kwargs w
  = (Ok tt, mkWorld (events w) (calls w ++ notify_calls kwargs l)).
Proof.
  intros H Hnone. rewrite (dispatch_known outcome _ kwargs _ _ H).
  rewrite loop_all_return; [by rewrite notify_calls_omap|].
  intros i x c Hx [= <-]. simpl. rewrite notify_calls_omap.
  by apply Hnone.
Qed.

(** [dispatch] of a known event when the notify callback of the entry at
    index [i] is the first to raise. *)
Lemma dispatch_first_raise (event : string) (kwargs : Kwargs) (w : World)
    (l : list Entry) (i : nat) (x : Entry) (exn : Exn) :
  events w !! event = Some l ->
  l !! i = Some x ->
  (forall j y,
     j < i -> l !! j = Some y ->
     outcome (calls w ++ notify_calls kwargs (take j l)) (fst y) kwargs
     = None) ->
  outcome (calls w ++ notify_calls kwargs (take i l)) (fst x) kwargs
  = Some exn ->
  dispatch outcome event kwargs w
  = (Raise exn,
     mkWorld (events w) (calls w ++ notify_calls kwargs (take (S i) l))).
Proof.
  intros H Hx Hbefore Hraise.
  rewrite (dispatch_known outcome _ kwargs _ _ H).
  rewrite (loop_first_raise outcome (notify_call kwargs) l w i x
             (mkCall (fst x) kwargs) exn Hx eq_refl).
  - by rewrite notify_calls_omap.
  - intros j y d Hj Hy [= <-]. simpl. rewrite notify_calls_omap.
    by apply Hbefore.
  - simpl. by rewrite notify_calls_omap.
Qed.

(** [unregister] of a known event whose teardown callbacks all return
    when their turn comes. *)
Lemma unregister_all_return (event : string) (w : World) (l : list Entry) :
  events w !! event = Some l ->
  (forall i x cb,
     l !! i = Some x -> snd x = Some cb ->
     outcome (calls w ++ teardown_calls (take i l)) cb [] = None) ->
  unregister outcome event w
  = (Ok tt,
     mkWorld (delete event (events w)) (calls w ++ teardown_calls l)).
Proof.
  intros H Hnone. rewrite (unregister_known outcome _ _ _ H).
  unfold bind. rewrite loop_all_return.
  - unfold delitem. simpl. by rewrite H.
  - intros i x c Hx Hfx. unfold teardown_call in Hfx.
    destruct (snd x) as [cb|] eqn:Hsnd; [|done].
    injection Hfx as <-. simpl. by apply (Hnone i x cb).
Qed.

(** [unregister] of a known event when the teardown callback of the entry
    at index [i] is the first to raise: the [del] is not reached. *)
Lemma unregister_first_raise (event : string) (w : World) (l : list Entry)
    (i : nat) (x : Entry) (cb : Callable) (exn : Exn) :
  events w !! event = Some l ->
  l !! i = Some x ->
  snd x = Some cb ->
  (forall j y cb',
     j < i -> l !! j = Some y -> snd y = Some cb' ->
     outcome (calls w ++ teardown_calls (take j l)) cb' [] = None) ->
  outcome (calls w ++ teardown_calls (take i l)) cb [] = Some exn ->
  unregister outcome event w
  = (Raise exn,
     mkWorld (events w) (calls w ++ teardown_calls (take (S i) l))).
Proof.
  intros H Hx Hsnd Hbefore Hraise.
  rewrite (unregister_known outcome _ _ _ H). unfold bind.
  rewrite (loop_first_raise outcome teardown_call l w i x
             (mkCall cb []) exn Hx).
  - done.
  - unfold teardown_call. by rewrite Hsnd.
  - intros j y d Hj Hy Hfy. unfold teardown_call in Hfy.
    destruct (snd y) as [cb'|] eqn:Hsy; [|done].
    injection Hfy as <-. simpl. by apply (Hbefore j y cb').
  - done.
Qed.

(** C4, as amended.  [dispatch] never changes the mapping.  For an event
    without entries it returns normally, calls nothing and leaves the world
    as it was.  If every notify callback of the event returns when its
    turn comes, [dispatch] returns normally having called the notify
    callback of every entry exactly once, in registration order, each with
    the keyword arguments of the dispatch.  If the notify callback of the
    entry at index [i] is the first to raise, [dispatch] raises that
    exception: the entries up to and including index [i] were called once
    each, in order, and the entries after it were not called.  Conversely,
    a [dispatch] that returned has called every entry, and one that raised
    did so because a notify callback raised. *)
Theorem dispatch_notifies_in_order (event : string) (kwargs : Kwargs)
    (w : World) :
  let l := entries_of w event in
  let r := dispatch outcome event kwargs w in
  events (snd r) = events w /\
  (l = [] -> r = (Ok tt, w)) /\
  ((forall i x,
      l !! i = Some x ->
      outcome (calls w ++ notify_calls kwargs (take i l)) (fst x) kwargs
      = None) ->
   r = (Ok tt, mkWorld (events w) (calls w ++ notify_calls kwargs l))) /\
  (forall i x exn,
     l !! i = Some x ->
     (forall j y,
        j < i -> l !! j = Some y ->
        outcome (calls w ++ notify_calls kwargs (take j l)) (fst y) kwargs
        = None) ->
     outcome (calls w ++ notify_calls kwargs (take i l)) (fst x) kwargs
     = Some exn ->
     r = (Raise exn,
          mkWorld (events w)
                  (calls w ++ notify_calls kwargs (take (S i) l)))) /\
  (fst r = Ok tt -> calls (snd r) = calls w ++ notify_calls kwargs l) /\
  (forall exn, fst r = Raise exn ->
     exists l1 x l2,
       l = l1 ++ x :: l2 /\
       calls (snd r) = calls w ++ notify_calls kwargs (l1 ++ [x]) /\
       outcome (calls w ++ notify_calls kwargs l1) (fst x) kwargs
       = Some exn).
Proof.
  cbv zeta. destruct (events w !! event) as [l|] eqn:H.
  - rewrite (entries_of_Some _ _ _ H).
    split; [|split; [|split; [|split]]].
    + rewrite (dispatch_known outcome _ kwargs _ _ H).
      apply (callback_loop outcome (notify_call kwargs) l w).
    + intros ->. by rewrite (dispatch_known outcome _ kwargs _ _ H).
    + by apply dispatch_all_return.
    + intros i x exn. by apply dispatch_first_raise.
    + rewrite (dispatch_known outcome _ kwargs _ _ H).
      pose proof (callback_loop outcome (notify_call kwargs) l w) as Hloop.
      cbv zeta in Hloop. destruct Hloop as [Hev Hcalls]. split.
      * intros Hok. rewrite Hok in Hcalls.
        by rewrite <- notify_calls_omap.
      * intros exn Hraise. rewrite Hraise in Hcalls.
        destruct Hcalls as (l1 & x & l2 & c & -> & Hfx & Hcalls & Hout).
        injection Hfx as <-. simpl in Hout.
        exists l1, x, l2. rewrite notify_calls_omap in Hcalls, Hout.
        split; [done|]. split; [|done].
        rewrite Hcalls. unfold notify_calls. by rewrite map_app.
  - rewrite (entries_of_None _ _ H), (dispatch_unknown outcome _ kwargs _ H).
    simpl. split; [done|]. split; [done|].
    split; [intros _; by rewrite app_nil_r, world_eta|].
    split; [by intros i x exn Hx|].
    split; [by rewrite app_nil_r | done].
Qed.

(** C5, as amended.  If every teardown callback of the event returns when
    its turn comes, [unregister] returns normally, having called, in
    registration order and without arguments, the teardown callback of
    every entry that has one and nothing for the entries that have none,
    and the event's key is gone from the mapping.  If the teardown
    callback of the entry at index [i] is the first to raise, [unregister]
    raises that exception, the teardown callbacks of the entries after
    index [i] are not called, and the mapping is left as it was.  Whenever
    [unregister] has returned, the teardown calls have all been made, the
    key is gone and [get_subscribers] of the event raises [KeyError]. *)
Theorem unregister_tears_down_and_removes (event : string) (w : World) :
  let l := entries_of w event in
  let r := unregister outcome event w in
  ((forall i x cb,
      l !! i = Some x -> snd x = Some cb ->
      outcome (calls w ++ teardown_calls (take i l)) cb [] = None) ->
   r = (Ok tt,
        mkWorld (delete event (events w)) (calls w ++ teardown_calls l))) /\
  (forall i x cb exn,
     l !! i = Some x -> snd x = Some cb ->
     (forall j y cb',
        j < i -> l !! j = Some y -> snd y = Some cb' ->
        outcome (calls w ++ teardown_calls (take j l)) cb' [] = None) ->
     outcome (calls w ++ teardown_calls (take i l)) cb [] = Some exn ->
     r = (Raise exn,
          mkWorld (events w)
                  (calls w ++ teardown_calls (take (S i) l)))) /\
  (fst r = Ok tt ->
     calls (snd r) = calls w ++ teardown_calls l /\
     events (snd r) = delete event (events w) /\
     events (snd r) !! event = None /\
     get_subscribers event (snd r) = (Raise (KeyError event), snd r)).
Proof.
  cbv zeta. destruct (events w !! event) as [l|] eqn:H.
  - rewrite (entries_of_Some _ _ _ H).
    split; [by apply unregister_all_return|].
    split; [intros i x cb exn; by apply unregister_first_raise|].
    rewrite (unregister_known outcome _ _ _ H).
    pose proof (callback_loop outcome teardown_call l w) as Hloop.
    cbv zeta in Hloop. destruct Hloop as [Hev Hcalls].
    unfold bind.
    destruct (for_each l (maybe_call outcome teardown_call) w)
      as [[[]|exn] w'] eqn:Hrun; simpl in *; [|done].
    unfold delitem. rewrite Hev, H. simpl. intros _.
    split; [done|]. split; [done|].
    split; [apply lookup_delete_eq|].
    unfold get_subscribers, bind, getitem. simpl.
    by rewrite lookup_delete_eq.
  - rewrite (entries_of_None _ _ H), (unregister_unknown outcome _ _ H).
    simpl.
    split; [intros _; by rewrite app_nil_r, delete_id, world_eta|].
    split; [by intros i x cb exn Hx|]. intros _.
    split; [by rewrite app_nil_r|]. split; [by rewrite delete_id|].
    split; [done|].
    unfold get_subscribers, bind, getitem. by rewrite H.
Qed.

(** When [unregister] of a registered event raises, it is a teardown
    callback of that event that raised, and the mapping is as before. *)
Lemma unregister_raise_inversion (event : string) (w : World)
    (l : list Entry) (exn : Exn) :
  events w !! event = Some l ->
  fst (unregister outcome event w) = Raise exn ->
  let w' := snd (unregister outcome event w) in
  events w' = events w /\
  events w' !! event = Some l /\
  exists l1 x cb l2,
    l = l1 ++ x :: l2 /\ snd x = Some cb /\
    outcome (calls w ++ teardown_calls l1) cb [] = Some exn /\
    calls w' = calls w ++ teardown_calls l1 ++ [mkCall cb []].
Proof.
  intros H. rewrite (unregister_known outcome _ _ _ H).
  pose proof (callback_loop outcome teardown_call l w) as Hloop.
  cbv zeta in Hloop. destruct Hloop as [Hev Hcalls].
  unfold bind.
  destruct (for_each l (maybe_call outcome teardown_call) w)
    as [[[]|exn'] w'] eqn:Hrun; simpl in *.
  - unfold delitem. by rewrite Hev, H.
  - intros [= ->]. split; [done|]. split; [by rewrite Hev|].
    destruct Hcalls as (l1 & x & l2 & c & -> & Hfx & Hcalls & Hout).
    unfold teardown_call in Hfx.
    destruct (snd x) as [cb|] eqn:Hsnd; [|done].
    injection Hfx as <-. simpl in Hout.
    by exists l1, x, cb, l2.
Qed.

(** C9.  Let the teardown callback of the entry at index [i] of a
    registered event raise when its turn comes, the teardown callbacks of
    the entries before it having returned.  Then [unregister] raises that
    exception and the [del] is not reached: the mapping is as before, so
    the event is still a key with all its entries; and the log shows that
    the teardown callbacks of the entries before index [i] have run,
    followed by the raising one. *)
Theorem failed_teardown_keeps_event (event : string) (w : World)
    (l : list Entry) (i : nat) (x : Entry) (cb : Callable) (exn : Exn) :
  events w !! event = Some l ->
  l !! i = Some x ->
  snd x = Some cb ->
  (forall j y cb',
     j < i -> l !! j = Some y -> snd y = Some cb' ->
     outcome (calls w ++ teardown_calls (take j l)) cb' [] = None) ->
  outcome (calls w ++ teardown_calls (take i l)) cb [] = Some exn ->
  let r := unregister outcome event w in
  fst r = Raise exn /\
  events (snd r) = events w /\
  events (snd r) !! event = Some l /\
  length (entries_of (snd r) event) = length l /\
  calls (snd r)
  = calls w ++ teardown_calls (take i l) ++ [mkCall cb []].
Proof.
  intros H Hx Hsnd Hbefore Hraise. cbv zeta.
  rewrite (unregister_first_raise event w l i x cb exn) by done.
  simpl. split; [done|]. split; [done|]. split; [done|].
  split; [by rewrite (entries_of_Some _ _ l)|].
  rewrite (take_S_r l i x Hx). unfold teardown_calls.
  rewrite omap_app. csimpl. unfold teardown_call at 2. by rewrite Hsnd.
Qed.

End Delivery.

(* ------------------------------------------------------------------ *)
(** ** Registration *)

(** The teardown callback [register] records for a subscriber. *)
Lemma teardown_probe (obj : PyObject) (w : World) :
  (if hasattr obj "unregister"
   then cb <- getattr obj "unregister" ;; ret (Some cb)
   else ret None) w
  = (Ok (if hasattr obj "unregister"
         then Some (BoundMethod (oid obj) "unregister") else None), w).
Proof.
  unfold getattr, bind. by destruct (hasattr obj "unregister").
Qed.

(** A registration whose notify capability exists: the entry goes to the
    end of the event's list, nothing is called. *)
Lemma register_succeeds (event : string) (obj : PyObject)
    (method : option string) (w : World) :
  hasattr obj (run_or method) = true ->
  register event obj method w
  = (Ok tt,
     mkWorld
       (<[event := entries_of w event ++
                   [(BoundMethod (oid obj) (run_or method),
                     if hasattr obj "unregister"
                     then Some (BoundMethod (oid obj) "unregister")
                     else None)]]> (events w))
       (calls w)).
Proof.
  intros Hrun. unfold register, entries_of.
  unfold bind at 1. unfold contains.
  destruct (events w !! event) as [l|] eqn:H; simpl.
  - unfold bind at 1. unfold ret at 1.
    unfold bind at 1. unfold getitem at 1. rewrite H.
    unfold bind at 1. unfold getattr at 1. rewrite Hrun. unfold ret at 1.
    unfold bind at 1. rewrite teardown_probe.
    unfold append, bind, getitem, setitem. by rewrite H.
  - unfold bind at 1. unfold setitem at 1.
    unfold bind at 1. unfold getitem at 1. simpl. rewrite lookup_insert_eq.
    unfold bind at 1. unfold getattr at 1. rewrite Hrun. unfold ret at 1.
    unfold bind at 1. rewrite teardown_probe.
    unfold append, bind, getitem, setitem. simpl.
    rewrite lookup_insert_eq. simpl. by rewrite insert_insert_eq.
Qed.

(** A registration whose notify capability is missing: [getattr] raises
    after the event's list has been created, so an unknown event is left
    with an empty list; a known event is left as it was. *)
Lemma register_fails (event : string) (obj : PyObject)
    (method : option string) (w : World) :
  hasattr obj (run_or method) = false ->
  register event obj method w
  = (Raise (AttributeError (run_or method)),
     mkWorld
       (match events w !! event with
        | Some _ => events w
        | None => <[event := []]> (events w)
        end)
       (calls w)).
Proof.
  intros Hrun. unfold register.
  unfold bind at 1. unfold contains.
  destruct (events w !! event) as [l|] eqn:H; simpl.
  - unfold bind at 1. unfold ret at 1.
    unfold bind at 1. unfold getitem at 1. rewrite H.
    unfold bind at 1. unfold getattr at 1. rewrite Hrun.
    unfold raise. by rewrite world_eta.
  - unfold bind at 1. unfold setitem at 1.
    unfold bind at 1. unfold getitem at 1. simpl. rewrite lookup_insert_eq.
    unfold bind at 1. unfold getattr at 1. by rewrite Hrun.
Qed.

(** [register] calls no callback and touches no other event's list,
    whether it returns or raises. *)
Lemma register_frame (event other : string) (obj : PyObject)
    (method : option string) (w : World) :
  event <> other ->
  events (snd (register event obj method w)) !! other = events w !! other /\
  calls (snd (register event obj method w)) = calls w.
Proof.
  intros Hne. destruct (hasattr obj (run_or method)) eqn:Hrun.
  - rewrite register_succeeds by done. simpl.
    by rewrite lookup_insert_ne.
  - rewrite register_fails by done. simpl.
    destruct (events w !! event); [done|]. by rewrite lookup_insert_ne.
Qed.

Lemma run_or_default : run_or None = "run".
Proof. done. Qed.

Lemma run_or_given (name : string) : name <> "" -> run_or (Some name) = name.
Proof. intros Hne. by destruct name. Qed.

(** C7.  Let [name] be the method name that was given, or ["run"] when
    none was given, and let the subscriber expose it.  Then [register]
    returns normally and calls nothing; the entry it adds has the bound
    method [obj.name] as notify callback and a teardown callback exactly
    when the subscriber has an [unregister] attribute, which is then the
    bound method [obj.unregister]; the entry is put at the end of the
    event's list; and [k] registrations in a row of the same subscriber put
    [k] copies of the entry at the end of the list, the other events being
    left alone. *)
Theorem register_binds_and_appends (event : string) (obj : PyObject)
    (method : option string) (name : string) (k : nat) (w : World) :
  (method = None /\ name = "run") \/ (method = Some name /\ name <> "") ->
  hasattr obj name = true ->
  exists teardown,
    (is_Some teardown <-> hasattr obj "unregister" = true) /\
    (forall cb, teardown = Some cb ->
                cb = BoundMethod (oid obj) "unregister") /\
    let entry := (BoundMethod (oid obj) name, teardown) in
    register event obj method w
    = (Ok tt,
       mkWorld (<[event := entries_of w event ++ [entry]]> (events w))
               (calls w)) /\
    let r := repeat_call k (register event obj method) w in
    fst r = Ok tt /\
    calls (snd r) = calls w /\
    entries_of (snd r) event = entries_of w event ++ replicate k entry /\
    (forall other, other <> event ->
                   events (snd r) !! other = events w !! other).
Proof.
  intros Hname Hattr.
  assert (Hrun : run_or method = name).
  { destruct Hname as [[-> ->]|[-> Hne]];
      [apply run_or_default | by apply run_or_given]. }
  rewrite <- Hrun in Hattr.
  exists (if hasattr obj "unregister"
          then Some (BoundMethod (oid obj) "unregister") else None).
  split; [|split; [|split]].
  - destruct (hasattr obj "unregister"); split; intros H; done.
  - intros cb. destruct (hasattr obj "unregister"); [|done].
    by intros [= <-].
  - rewrite <- Hrun. by apply register_succeeds.
  - cbv zeta. rewrite <- Hrun. clear Hname Hrun. revert w.
    induction k as [|k IH]; intros w.
    + simpl. split; [done|]. split; [done|].
      split; [by rewrite app_nil_r | done].
    + simpl. unfold bind. rewrite register_succeeds by done.
      match goal with
      | |- context [repeat_call k _ ?w1] =>
          destruct (IH w1) as (Hok & Hcalls & Hentries & Hother)
      end.
      split; [done|]. split; [done|]. split.
      * rewrite Hentries. unfold entries_of at 1. simpl.
        rewrite lookup_insert_eq. simpl. by rewrite <- app_assoc.
      * intros other Hne. rewrite Hother by done. simpl.
        by rewrite lookup_insert_ne.
Qed.

(** C10.  Registering with the empty string as method name does what
    registering without a method name does.  The attribute looked up on
    the subscriber is ["run"] in both cases; when the subscriber has it,
    the bound method [obj.run] becomes the notify callback of the entry
    appended to the event's list, whether or not the subscriber also has
    an attribute named by the empty string; when it has not, both calls
    raise [AttributeError] for ["run"]. *)
Theorem register_empty_method_is_default (event : string) (obj : PyObject)
    (w : World) :
  register event obj (Some "") w = register event obj None w /\
  (hasattr obj "run" = true ->
   register event obj (Some "") w
   = (Ok tt,
      mkWorld
        (<[event := entries_of w event ++
                    [(BoundMethod (oid obj) "run",
                      if hasattr obj "unregister"
                      then Some (BoundMethod (oid obj) "unregister")
                      else None)]]> (events w))
        (calls w))) /\
  (hasattr obj "run" = false ->
   fst (register event obj (Some "") w) = Raise (AttributeError "run") /\
   forall e, entries_of (snd (register event obj (Some "") w)) e
             = entries_of w e).
Proof.
  split; [reflexivity|]. split.
  - intros Hrun. by rewrite (register_succeeds event obj (Some "") w Hrun).
  - intros Hrun. rewrite (register_fails event obj (Some "") w Hrun).
    simpl. split; [done|]. intros e. unfold entries_of. simpl.
    destruct (events w !! event) as [l|] eqn:H; [done|].
    destruct (decide (event = e)) as [<-|Hne].
    + by rewrite lookup_insert_eq, H.
    + by rewrite lookup_insert_ne.
Qed.

(* ------------------------------------------------------------------ *)
(** ** Events do not interfere *)

Section Frame.

Variable outcome : list Call -> Callable -> Kwargs -> option Exn.

(** C8.  For two different event names [a] and [b], whatever [register],
    [dispatch] or [unregister] of [a] does and however it ends, the list
    stored under [b] is afterwards what it was before; [register] calls no
    callback at all, every callback [dispatch] calls is the notify callback
    of an entry of [a], and every callback [unregister] calls is the
    teardown callback of an entry of [a].  The entries of [b] are never
    looked at. *)
Theorem no_cross_event_leakage (a b : string) (w : World) :
  a <> b ->
  (forall obj method,
     let r := register a obj method w in
     events (snd r) !! b = events w !! b /\ calls (snd r) = calls w) /\
  (forall kwargs,
     let r := dispatch outcome a kwargs w in
     events (snd r) !! b = events w !! b /\
     exists new,
       calls (snd r) = calls w ++ new /\
       forall c, c ∈ new ->
                 exists e, e ∈ entries_of w a /\ callee c = fst e) /\
  (let r := unregister outcome a w in
   events (snd r) !! b = events w !! b /\
   exists new,
     calls (snd r) = calls w ++ new /\
     forall c, c ∈ new ->
               exists e, e ∈ entries_of w a /\ snd e = Some (callee c)).
Proof.
  intros Hne. split; [|split].
  - intros obj method. by apply register_frame.
  - intros kwargs. cbv zeta.
    destruct (events w !! a) as [l|] eqn:H.
    + rewrite (entries_of_Some _ _ _ H), (dispatch_known outcome _ kwargs _ _ H).
      pose proof (callback_loop outcome (notify_call kwargs) l w) as Hloop.
      cbv zeta in Hloop. destruct Hloop as [Hev Hcalls].
      split; [by rewrite Hev|].
      destruct (fst (for_each l _ w)) as [u|exn].
      * exists (omap (notify_call kwargs) l). split; [done|].
        intros c Hc. apply list_elem_of_omap in Hc as (e & He & [= <-]).
        by exists e.
      * destruct Hcalls as (l1 & x & l2 & c & -> & Hfx & Hcalls & _).
        exists (omap (notify_call kwargs) l1 ++ [c]). split; [done|].
        intros d Hd. apply elem_of_app in Hd as [Hd|Hd].
        -- apply list_elem_of_omap in Hd as (e & He & [= <-]).
           exists e. split; [|done]. apply elem_of_app. by left.
        -- apply list_elem_of_singleton in Hd as ->.
           injection Hfx as <-. exists x. split; [|done].
           apply elem_of_app. right. apply list_elem_of_here.
    + rewrite (dispatch_unknown outcome _ kwargs _ H). simpl.
      split; [done|]. exists []. split; [by rewrite app_nil_r|].
      intros c Hc. by apply not_elem_of_nil in Hc.
  - cbv zeta. destruct (events w !! a) as [l|] eqn:H.
    + rewrite (entries_of_Some _ _ _ H), (unregister_known outcome _ _ _ H).
      pose proof (callback_loop outcome teardown_call l w) as Hloop.
      cbv zeta in Hloop. destruct Hloop as [Hev Hcalls].
      unfold bind.
      destruct (for_each l (maybe_call outcome teardown_call) w)
        as [[[]|exn] w'] eqn:Hrun; simpl in *.
      * unfold delitem. rewrite Hev, H. simpl.
        split; [by rewrite lookup_delete_ne|].
        exists (omap teardown_call l). split; [done|].
        intros c Hc. apply list_elem_of_omap in Hc as (e & He & Hcall).
        exists e. split; [done|]. unfold teardown_call in Hcall.
        destruct (snd e) as [cb|]; [|done]. by injection Hcall as <-.
      * split; [by rewrite Hev|].
        destruct Hcalls as (l1 & x & l2 & c & -> & Hfx & Hcalls & _).
        exists (omap teardown_call l1 ++ [c]). split; [done|].
        intros d Hd. apply elem_of_app in Hd as [Hd|Hd].
        -- apply list_elem_of_omap in Hd as (e & He & Hcall).
           exists e. split; [apply elem_of_app; by left|].
           unfold teardown_call in Hcall.
           destruct (snd e) as [cb|]; [|done]. by injection Hcall as <-.
        -- apply list_elem_of_singleton in Hd as ->.
           exists x. split; [apply elem_of_app; right; apply list_elem_of_here|].
           unfold teardown_call in Hfx.
           destruct (snd x) as [cb|]; [|done]. by injection Hfx as <-.
    + rewrite (unregister_unknown outcome _ _ H). simpl.
      split; [done|]. exists []. split; [by rewrite app_nil_r|].
      intros c Hc. by apply not_elem_of_nil in Hc.
Qed.

End Frame.

(* ------------------------------------------------------------------ *)
(** ** Lists of the mapping: when they can be empty *)

Section Lists.

Variable outcome : list Call -> Callable -> Kwargs -> option Exn.

Lemma dispatch_events (event : string) (kwargs : Kwargs) (w : World) :
  events (snd (dispatch outcome event kwargs w)) = events w.
Proof.
  destruct (events w !! event) as [l|] eqn:H.
  - rewrite (dispatch_known outcome _ kwargs _ _ H).
    apply (callback_loop outcome (notify_call kwargs) l w).
  - by rewrite (dispatch_unknown outcome _ kwargs _ H).
Qed.

Lemma unregister_events (event : string) (w : World) :
  events (snd (unregister outcome event w)) = events w \/
  events (snd (unregister outcome event w)) = delete event (events w).
Proof.
  destruct (events w !! event) as [l|] eqn:H.
  - rewrite (unregister_known outcome _ _ _ H).
    pose proof (callback_loop outcome teardown_call l w) as Hloop.
    cbv zeta in Hloop. destruct Hloop as [Hev _].
    unfold bind.
    destruct (for_each l (maybe_call outcome teardown_call) w)
      as [[[]|exn] w']; simpl in *.
    + right. unfold delitem. by rewrite Hev, H.
    + by left.
  - left. by rewrite (unregister_unknown outcome _ _ H).
Qed.

(** Every call keeps the lists of the mapping non-empty, except a
    registration that raises for an event that was not yet a key. *)
Lemma run_op_no_empty_list (o : Op) (w : World) :
  no_empty_list w ->
  (forall event obj method,
     o = OpRegister event obj method ->
     hasattr obj (run_or method) = true \/ is_Some (events w !! event)) ->
  no_empty_list (snd (run_op outcome o w)).
Proof.
  intros Hinv Hreg. destruct o as [event obj method|event kwargs|event]; simpl.
  - destruct (hasattr obj (run_or method)) eqn:Hrun.
    + rewrite register_succeeds by done. intros ev l. simpl.
      destruct (decide (event = ev)) as [->|Hne].
      * rewrite lookup_insert_eq. intros [= <-].
        by destruct (entries_of w ev).
      * rewrite lookup_insert_ne by done. apply Hinv.
    + rewrite register_fails by done.
      destruct (Hreg event obj method eq_refl) as [Hhas|[l Hl]];
        [congruence|].
      rewrite Hl. simpl. apply Hinv.
  - intros ev l. rewrite dispatch_events. apply Hinv.
  - intros ev l.
    destruct (unregister_events event w) as [-> | ->]; [apply Hinv|].
    intros Hl. apply lookup_delete_Some in Hl as [_ Hl]. by eapply Hinv.
Qed.

(** In a run without a registration that raises, every key of the mapping
    holds at least one entry. *)
Lemma exec_no_empty_list (ops : list Op) (w : World) :
  no_empty_list w ->
  Forall (fun o => match o with
                   | OpRegister _ obj method =>
                       hasattr obj (run_or method) = true
                   | _ => True
                   end) ops ->
  no_empty_list (exec outcome ops w).
Proof.
  intros Hinv Hops. revert w Hinv.
  induction Hops as [|o ops Ho _ IH]; intros w Hinv; [done|].
  simpl. apply IH. apply run_op_no_empty_list; [done|].
  intros event obj method ->. by left.
Qed.

End Lists.

(** C1, at the failing input.  [mute] has no [run] attribute.  Registering
    it for the unknown event ["build.done"] in the empty registry raises
    [AttributeError], and the registry is not what it was before the
    call: ["build.done"] has become a key, with the empty list. *)
Theorem failed_register_changes_registry :
  hasattr mute (run_or None) = false /\
  register "build.done" mute None initial_world
  = (Raise (AttributeError "run"), mkWorld {["build.done" := []]} []) /\
  events (snd (register "build.done" mute None initial_world))
  <> events initial_world.
Proof.
  split; [done|]. split; [reflexivity|].
  intros Heq.
  assert (H : events (snd (register "build.done" mute None initial_world))
              !! "build.done" = None) by (by rewrite Heq).
  vm_compute in H. discriminate H.
Qed.

(** C3, at the failing input.  The world after the single call
    [register("build.done", mute)] from the empty registry is reachable,
    and in it the key ["build.done"] maps to the empty list. *)
Theorem reachable_with_empty_list :
  let w := exec always_returns [OpRegister "build.done" mute None]
             initial_world in
  reachable always_returns w /\
  events w !! "build.done" = Some [] /\
  ~ no_empty_list w.
Proof.
  cbv zeta. split; [by eexists|]. split; [reflexivity|].
  intros Hinv. by apply (Hinv "build.done" []).
Qed.

(** C2, at the failing input.  After the failed call
    [register("build.done", mute)] on the empty registry, ["build.done"]
    has no registration, yet [get_subscribers] of it returns the empty
    list instead of raising [KeyError], and [unregister] of it is not a
    no-op: it changes the mapping by deleting the key.  [dispatch] calls
    nothing and changes nothing. *)
Theorem query_after_failed_register :
  let w := snd (register "build.done" mute None initial_world) in
  fst (register "build.done" mute None initial_world)
  = Raise (AttributeError "run") /\
  entries_of w "build.done" = [] /\
  get_subscribers "build.done" w = (Ok [], w) /\
  dispatch always_returns "build.done" status_ok w = (Ok tt, w) /\
  unregister always_returns "build.done" w = (Ok tt, initial_world) /\
  snd (unregister always_returns "build.done" w) <> w.
Proof.
  cbv zeta. repeat (split; [reflexivity|]).
  intros Heq.
  assert (H : events (snd (register "build.done" mute None initial_world))
              !! "build.done" = None) by (by rewrite <- Heq).
  vm_compute in H. discriminate H.
Qed.

(* ------------------------------------------------------------------ *)
(** ** The singleton *)

Lemma get_instance_existing (p : Process) (l : nat) :
  __instance p = Some l -> get_instance p = (Ok (Some l), p).
Proof.
  intros H. unfold get_instance, bind, read_instance. rewrite H. simpl.
  by rewrite H.
Qed.

Lemma get_instance_first (p : Process) :
  __instance p = None ->
  get_instance p
  = (Ok (Some (length (heap p))),
     mkProcess (Some (length (heap p)))
               (<[length (heap p) := Some ∅]> (heap p ++ [None]))).
Proof.
  intros H.
  unfold get_instance, EventDispatcher, __init__, bind, read_instance, new,
    write_events, write_instance.
  rewrite H. simpl. by rewrite H.
Qed.

Lemma constructor_fails (p : Process) (l : nat) :
  __instance p = Some l ->
  EventDispatcher p
  = (Raise (InstantiationError "This class is a singleton!"),
     mkProcess (Some l) (heap p ++ [None])).
Proof.
  intros H. unfold EventDispatcher, __init__, bind, read_instance, new, raise.
  simpl. by rewrite H.
Qed.

(** Once the class attribute is set, no sequence of calls to
    [get_instance] and to the constructor changes it or the object it
    points at. *)
Lemma class_calls_keep_instance (cs : list ClassCall) (p : Process)
    (l : nat) :
  __instance p = Some l ->
  l < length (heap p) ->
  let r := run_class_calls cs p in
  __instance (snd r) = Some l /\
  heap (snd r) !! l = heap p !! l /\
  Forall2 (fun c res =>
             match c with
             | CallGetInstance => res = Ok (Some l)
             | CallConstructor =>
                 res = Raise (InstantiationError "This class is a singleton!")
             end) cs (fst r).
Proof.
  revert p. induction cs as [|c cs IH]; intros p Hinst Hlt; simpl.
  - split; [done|]. split; [done|]. constructor.
  - destruct c; simpl.
    + rewrite (get_instance_existing p l Hinst).
      specialize (IH p Hinst Hlt). cbv zeta in IH.
      destruct (run_class_calls cs p) as [rs p2]. simpl in *.
      destruct IH as (Hi & Hh & Hall).
      split; [done|]. split; [done|]. by constructor.
    + unfold bind. rewrite (constructor_fails p l Hinst).
      specialize (IH (mkProcess (Some l) (heap p ++ [None])) eq_refl).
      cbv zeta in IH. simpl in IH.
      destruct (run_class_calls cs _) as [rs p2]. simpl in *.
      destruct IH as (Hi & Hh & Hall).
      { rewrite length_app. simpl. lia. }
      split; [done|]. split; [|by constructor].
      rewrite Hh. by apply lookup_app_l.
Qed.

(** C6.  In a process whose class attribute, if set, points at an
    allocated object: [get_instance] returns an instance and leaves the
    class attribute pointing at it; when an instance already exists it is
    the one returned and nothing is created or changed, otherwise a new
    object with an empty mapping is created.  After that, in any sequence
    of calls, every [get_instance] returns that same instance, every
    direct construction raises [InstantiationError], and the class
    attribute and the instance's [events] slot stay as they were. *)
Theorem singleton_instance (p : Process) (cs : list ClassCall) :
  well_formed p ->
  exists l p1,
    get_instance p = (Ok (Some l), p1) /\
    __instance p1 = Some l /\
    match __instance p with
    | Some l0 => l = l0 /\ p1 = p
    | None => l = length (heap p) /\ heap p1 !! l = Some (Some ∅)
    end /\
    let r := run_class_calls cs p1 in
    __instance (snd r) = Some l /\
    heap (snd r) !! l = heap p1 !! l /\
    Forall2 (fun c res =>
               match c with
               | CallGetInstance => res = Ok (Some l)
               | CallConstructor =>
                   res = Raise
                           (InstantiationError "This class is a singleton!")
               end) cs (fst r).
Proof.
  intros Hwf. unfold well_formed in Hwf.
  destruct (__instance p) as [l0|] eqn:Hinst.
  - exists l0, p. rewrite (get_instance_existing p l0 Hinst).
    split; [done|]. split; [done|]. split; [done|].
    by apply class_calls_keep_instance.
  - eexists _, _. rewrite (get_instance_first p Hinst).
    split; [done|]. split; [done|].
    assert (Hlen : length (heap p) < length (heap p ++ [None])).
    { rewrite length_app. simpl. lia. }
    split.
    + split; [done|]. simpl. by apply list_lookup_insert_eq.
    + apply class_calls_keep_instance; [done|].
      simpl. by rewrite length_insert.
Qed.

(* ------------------------------------------------------------------ *)
(** ** The properties at concrete inputs *)


(** When every callback returns, the three subscribers of ["build.done"]
    are notified in the order [logger], [builder], [cache]; when the
    second one raises, the third is not notified and the exception reaches
    the caller. *)
Lemma dispatch_notifies_in_order_witness :
  dispatch always_returns "build.done" status_ok busy_world
  = (Ok tt,
     mkWorld (events busy_world)
             [mkCall (BoundMethod 1 "run") status_ok;
              mkCall (BoundMethod 2 "handle") status_ok;
              mkCall (BoundMethod 3 "run") status_ok]) /\
  dispatch (fails_on (BoundMethod 2 "handle")) "build.done" status_ok
    busy_world
  = (Raise (CallbackError 1),
     mkWorld (events busy_world)
             [mkCall (BoundMethod 1 "run") status_ok;
              mkCall (BoundMethod 2 "handle") status_ok]).
Proof.
  split.
  - destruct (dispatch_notifies_in_order always_returns "build.done"
                status_ok busy_world) as (_ & _ & Hall & _).
    rewrite Hall; [reflexivity|]. intros i x Hx. reflexivity.
  - destruct (dispatch_notifies_in_order (fails_on (BoundMethod 2 "handle"))
                "build.done" status_ok busy_world)
      as (_ & _ & _ & Hraise & _).
    rewrite (Hraise 1
               (BoundMethod 2 "handle", Some (BoundMethod 2 "unregister"))
               (CallbackError 1)).
    + reflexivity.
    + reflexivity.
    + intros j y Hj Hy. destruct j as [|j]; [|lia].
      vm_compute in Hy. injection Hy as <-. reflexivity.
    + reflexivity.
Defined.

(** C4 as stated fails: ["build.done"] has three entries, the notify
    callback of the second one raises, and the third one's is not called
    at all. *)
Lemma dispatch_stops_at_failing_subscriber :
  let r := dispatch (fails_on (BoundMethod 2 "handle")) "build.done"
             status_ok busy_world in
  length (entries_of busy_world "build.done") = 3 /\
  r = (Raise (CallbackError 1),
       mkWorld (events busy_world)
               [mkCall (BoundMethod 1 "run") status_ok;
                mkCall (BoundMethod 2 "handle") status_ok]) /\
  (mkCall (BoundMethod 3 "run") status_ok ∉ calls (snd r)) /\
  calls (snd r)
  <> calls busy_world
     ++ notify_calls status_ok (entries_of busy_world "build.done").
Proof.
  cbv zeta. split; [reflexivity|]. split; [reflexivity|].
  split; [|vm_compute; discriminate].
  vm_compute. intros H.
  apply elem_of_cons in H as [H|H]; [discriminate H|].
  apply elem_of_cons in H as [H|H]; [discriminate H|].
  by apply not_elem_of_nil in H.
Qed.

(** When every callback returns, unregistering ["build.done"] tears down
    [builder] and [cache], in that order, skips [logger], and removes the
    key; when [builder]'s teardown raises, [cache]'s is not called and the
    mapping stays. *)
Lemma unregister_tears_down_and_removes_witness :
  unregister always_returns "build.done" busy_world
  = (Ok tt,
     mkWorld (delete "build.done" (events busy_world))
             [mkCall (BoundMethod 2 "unregister") [];
              mkCall (BoundMethod 3 "unregister") []]) /\
  unregister (fails_on (BoundMethod 2 "unregister")) "build.done" busy_world
  = (Raise (CallbackError 1),
     mkWorld (events busy_world) [mkCall (BoundMethod 2 "unregister") []]) /\
  get_subscribers "build.done"
    (snd (unregister always_returns "build.done" busy_world))
  = (Raise (KeyError "build.done"),
     snd (unregister always_returns "build.done" busy_world)).
Proof.
  destruct (unregister_tears_down_and_removes always_returns "build.done"
              busy_world) as (Hall & _ & Hafter).
  assert (Hrun : unregister always_returns "build.done" busy_world
                 = (Ok tt,
                    mkWorld (delete "build.done" (events busy_world))
                      [mkCall (BoundMethod 2 "unregister") [];
                       mkCall (BoundMethod 3 "unregister") []])).
  { rewrite Hall; [reflexivity|]. intros i x cb Hx Hcb. reflexivity. }
  split; [exact Hrun|]. split.
  - destruct (unregister_tears_down_and_removes
                (fails_on (BoundMethod 2 "unregister")) "build.done"
                busy_world) as (_ & Hraise & _).
    rewrite (Hraise 1
               (BoundMethod 2 "handle", Some (BoundMethod 2 "unregister"))
               (BoundMethod 2 "unregister") (CallbackError 1)).
    + reflexivity.
    + reflexivity.
    + reflexivity.
    + intros j y cb' Hj Hy Hcb. destruct j as [|j]; [|lia].
      vm_compute in Hy. injection Hy as <-. discriminate Hcb.
    + reflexivity.
  - apply Hafter. by rewrite Hrun.
Defined.

(** C5 as stated fails: two entries of ["build.done"] have a teardown
    callback, the first of them raises, and the second is never called;
    the key is still there. *)
Lemma unregister_stops_at_failing_teardown :
  let r := unregister (fails_on (BoundMethod 2 "unregister")) "build.done"
             busy_world in
  teardown_calls (entries_of busy_world "build.done")
  = [mkCall (BoundMethod 2 "unregister") [];
     mkCall (BoundMethod 3 "unregister") []] /\
  r = (Raise (CallbackError 1),
       mkWorld (events busy_world)
               [mkCall (BoundMethod 2 "unregister") []]) /\
  calls (snd r)
  <> calls busy_world
     ++ teardown_calls (entries_of busy_world "build.done") /\
  is_Some (events (snd r) !! "build.done").
Proof.
  cbv zeta. split; [reflexivity|]. split; [reflexivity|].
  split; [vm_compute; discriminate|].
  vm_compute. by eexists.
Qed.

(** [cache]'s teardown raises after [builder]'s has run: the event keeps
    its three entries. *)
Lemma failed_teardown_keeps_event_witness :
  let oc := fails_on (BoundMethod 3 "unregister") in
  let l := [(BoundMethod 1 "run", None);
            (BoundMethod 2 "handle", Some (BoundMethod 2 "unregister"));
            (BoundMethod 3 "run", Some (BoundMethod 3 "unregister"))] in
  events busy_world !! "build.done" = Some l /\
  fst (unregister oc "build.done" busy_world) = Raise (CallbackError 1) /\
  events (snd (unregister oc "build.done" busy_world)) !! "build.done"
  = Some l /\
  calls (snd (unregister oc "build.done" busy_world))
  = [mkCall (BoundMethod 2 "unregister") [];
     mkCall (BoundMethod 3 "unregister") []].
Proof.
  cbv zeta.
  assert (Hkey : events busy_world !! "build.done"
                 = Some [(BoundMethod 1 "run", None);
                         (BoundMethod 2 "handle",
                          Some (BoundMethod 2 "unregister"));
                         (BoundMethod 3 "run",
                          Some (BoundMethod 3 "unregister"))])
    by reflexivity.
  split; [exact Hkey|].
  destruct (failed_teardown_keeps_event
              (fails_on (BoundMethod 3 "unregister")) "build.done" busy_world
              _ 2 (BoundMethod 3 "run", Some (BoundMethod 3 "unregister"))
              (BoundMethod 3 "unregister") (CallbackError 1) Hkey)
    as (Hraise & _ & Hkept & _ & Hlog).
  - reflexivity.
  - reflexivity.
  - intros j y cb' Hj Hy Hcb.
    destruct j as [|[|j]]; [| |lia]; simpl in Hy; injection Hy as <-.
    + discriminate Hcb.
    + injection Hcb as <-. reflexivity.
  - reflexivity.
  - split; [exact Hraise|]. split; [exact Hkept|]. exact Hlog.
Defined.

Lemma singleton_instance_witness :
  well_formed (mkProcess None []) /\
  exists l p1,
    get_instance (mkProcess None []) = (Ok (Some l), p1) /\
    __instance p1 = Some l.
Proof.
  split; [exact I|].
  destruct (singleton_instance (mkProcess None [])
              [CallGetInstance; CallConstructor; CallGetInstance] I)
    as (l & p1 & Hget & Hinst & _).
  exists l, p1. split; [exact Hget | exact Hinst].
Defined.

Lemma register_binds_and_appends_witness :
  hasattr builder "handle" = true /\
  entries_of
    (snd (repeat_call 2 (register "build.done" builder (Some "handle"))
            initial_world)) "build.done"
  = [(BoundMethod 2 "handle", Some (BoundMethod 2 "unregister"));
     (BoundMethod 2 "handle", Some (BoundMethod 2 "unregister"))].
Proof.
  split; [reflexivity|].
  destruct (register_binds_and_appends "build.done" builder (Some "handle")
              "handle" 2 initial_world)
    as (teardown & _ & _ & _ & _ & _ & Hentries & _).
  - right. split; [reflexivity | discriminate].
  - reflexivity.
  - reflexivity.
Defined.

Lemma no_cross_event_leakage_witness :
  "build.done" <> "deploy" /\
  events (snd (unregister always_returns "build.done" busy_world))
  !! "deploy"
  = events busy_world !! "deploy".
Proof.
  split; [discriminate|].
  destruct (no_cross_event_leakage always_returns "build.done" "deploy"
              busy_world) as (_ & _ & Hunregister & _).
  - discriminate.
  - exact Hunregister.
Defined.

(* ------------------------------------------------------------------ *)
(** ** How the methods compose *)

(** X1.  After a registration whose notify capability exists,
    [get_subscribers] of the same event returns the notify callbacks that
    were there before, in their order, followed by the new bound method. *)
Theorem register_then_get_subscribers (event : string) (obj : PyObject)
    (method : option string) (w : World) :
  hasattr obj (run_or method) = true ->
  fst ((register event obj method ;; get_subscribers event) w)
  = Ok (map fst (entries_of w event)
        ++ [BoundMethod (oid obj) (run_or method)]).
Proof.
  intros Hrun. unfold bind. rewrite register_succeeds by done.
  unfold get_subscribers, bind, getitem. simpl.
  rewrite lookup_insert_eq. simpl. by rewrite map_app.
Qed.

(** X2.  [register] returns normally exactly when the subscriber exposes
    the notify capability it looks up; a missing [unregister] attribute
    never makes it fail.  When it fails it raises [AttributeError] for
    that name, and no event has gained or lost an entry; if the event was
    already a key, nothing at all has changed.  In no case is a callback
    called. *)
Theorem register_outcome (event : string) (obj : PyObject)
    (method : option string) (w : World) :
  let r := register event obj method w in
  (fst r = Ok tt <-> hasattr obj (run_or method) = true) /\
  (hasattr obj (run_or method) = false ->
     fst r = Raise (AttributeError (run_or method)) /\
     (forall e, entries_of (snd r) e = entries_of w e) /\
     (is_Some (events w !! event) -> snd r = w)) /\
  calls (snd r) = calls w.
Proof.
  cbv zeta. destruct (hasattr obj (run_or method)) eqn:Hrun.
  - rewrite register_succeeds by done. simpl.
    split; [done|]. split; [done|]. done.
  - rewrite register_fails by done. simpl.
    split; [split; intros; done|]. split; [|done]. intros _.
    split; [done|]. split.
    + intros e. unfold entries_of. simpl.
      destruct (events w !! event) as [l|] eqn:H; [done|].
      destruct (decide (event = e)) as [<-|Hne].
      * by rewrite lookup_insert_eq, H.
      * by rewrite lookup_insert_ne.
    + intros [l Hl]. rewrite Hl. apply world_eta.
Qed.

Section Composition.

Variable outcome : list Call -> Callable -> Kwargs -> option Exn.

(** X3.  An event that is a key with an empty list (what a failed
    registration of an unknown event leaves) is not treated as unknown by
    the query: [get_subscribers] returns the empty list instead of
    raising.  [dispatch] calls nothing and changes nothing, and
    [unregister] calls nothing and removes the key. *)
Theorem empty_list_event (event : string) (kwargs : Kwargs) (w : World) :
  events w !! event = Some [] ->
  get_subscribers event w = (Ok [], w) /\
  dispatch outcome event kwargs w = (Ok tt, w) /\
  unregister outcome event w
  = (Ok tt, mkWorld (delete event (events w)) (calls w)).
Proof.
  intros H. split; [|split].
  - unfold get_subscribers, bind, getitem. by rewrite H.
  - by rewrite (dispatch_known outcome _ kwargs _ _ H).
  - rewrite (unregister_known outcome _ _ _ H).
    unfold bind. simpl. unfold ret, delitem. by rewrite H.
Qed.

(** An unregistration that returns has removed the key and nothing else. *)
Lemma unregister_returns_deleted (event : string) (w : World) :
  fst (unregister outcome event w) = Ok tt ->
  events (snd (unregister outcome event w)) = delete event (events w).
Proof.
  destruct (events w !! event) as [l|] eqn:H.
  - rewrite (unregister_known outcome _ _ _ H).
    pose proof (callback_loop outcome teardown_call l w) as Hloop.
    cbv zeta in Hloop. destruct Hloop as [Hev _].
    unfold bind.
    destruct (for_each l (maybe_call outcome teardown_call) w)
      as [[[]|exn] w']; simpl in *; [|done].
    intros _. unfold delitem. by rewrite Hev, H.
  - rewrite (unregister_unknown outcome _ _ H). simpl.
    by rewrite delete_id.
Qed.

(** X5.  Once [unregister] of an event has returned, the event is unknown
    again: dispatching it calls nothing, unregistering it a second time
    does nothing, and a later registration starts a new list that holds
    the new entry alone, the former subscribers staying removed. *)
Theorem after_unregister (event : string) (kwargs : Kwargs)
    (obj : PyObject) (method : option string) (w : World) :
  fst (unregister outcome event w) = Ok tt ->
  let w' := snd (unregister outcome event w) in
  dispatch outcome event kwargs w' = (Ok tt, w') /\
  unregister outcome event w' = (Ok tt, w') /\
  (hasattr obj (run_or method) = true ->
   events (snd (register event obj method w')) !! event
   = Some [entry_of obj method]).
Proof.
  intros Hok. cbv zeta.
  pose proof (unregister_returns_deleted event w Hok) as Hdel.
  assert (Hnone : events (snd (unregister outcome event w)) !! event = None)
    by (rewrite Hdel; apply lookup_delete_eq).
  split; [by apply dispatch_unknown|].
  split; [by apply unregister_unknown|].
  intros Hrun. rewrite register_succeeds by done. simpl.
  rewrite lookup_insert_eq. by rewrite (entries_of_None _ _ Hnone).
Qed.

(** X6.  Registering a subscriber for an unknown event and then
    unregistering that event puts the mapping back exactly as it was; the
    only trace is the subscriber's teardown call, if it has one.  The
    teardown, when there is one, is assumed to return. *)
Theorem register_unregister_round_trip (event : string) (obj : PyObject)
    (method : option string) (w : World) :
  events w !! event = None ->
  hasattr obj (run_or method) = true ->
  (hasattr obj "unregister" = true ->
   outcome (calls w) (BoundMethod (oid obj) "unregister") [] = None) ->
  (register event obj method ;; unregister outcome event) w
  = (Ok tt,
     mkWorld (events w)
             (calls w ++ teardown_calls [entry_of obj method])).
Proof.
  intros Hnone Hrun Hout. unfold bind at 1.
  rewrite register_succeeds by done.
  rewrite (entries_of_None _ _ Hnone). simpl.
  erewrite unregister_known; [|simpl; apply lookup_insert_eq].
  unfold bind.
  destruct (hasattr obj "unregister") eqn:Hun.
  - rewrite (loop_returns outcome teardown_call _ [] _
               (mkCall (BoundMethod (oid obj) "unregister") []));
      [|done|by apply Hout].
    simpl. unfold ret, delitem. simpl. rewrite lookup_insert_eq.
    rewrite delete_insert_id by done.
    unfold teardown_calls, entry_of. csimpl. by rewrite Hun.
  - rewrite loop_skip by done.
    simpl. unfold ret, delitem. simpl. rewrite lookup_insert_eq.
    rewrite delete_insert_id by done.
    unfold teardown_calls, entry_of. csimpl. rewrite Hun. csimpl.
    by rewrite app_nil_r.
Qed.

(** One call adds to the list of [event] the entry of a successful
    registration under that name, and nothing otherwise, unless the call
    unregisters [event]. *)
Lemma run_op_entries (event : string) (o : Op) (w : World) :
  o <> OpUnregister event ->
  entries_of (snd (run_op outcome o w)) event
  = entries_of w event ++ option_list (registration event o).
Proof.
  intros Hop. destruct o as [e obj method|e kwargs|e]; simpl.
  - destruct (hasattr obj (run_or method)) eqn:Hrun.
    + rewrite register_succeeds by done. unfold entries_of at 1. simpl.
      destruct (decide (e = event)) as [->|Hne]; simpl.
      * by rewrite lookup_insert_eq.
      * rewrite lookup_insert_ne by done. by rewrite app_nil_r.
    + rewrite register_fails by done. unfold entries_of at 1. simpl.
      assert (Hno : option_list
                      (if decide (e = event) then @None Entry else None)
                    = []) by (by destruct (decide (e = event))).
      rewrite Hno, app_nil_r.
      destruct (events w !! e) as [l|] eqn:H; simpl; [done|].
      destruct (decide (e = event)) as [->|Hne].
      * rewrite lookup_insert_eq. unfold entries_of. by rewrite H.
      * by rewrite lookup_insert_ne.
  - unfold entries_of. rewrite dispatch_events. by rewrite app_nil_r.
  - assert (Hne : e <> event) by congruence.
    unfold entries_of. rewrite app_nil_r.
    destruct (unregister_events outcome e w) as [-> | ->]; [done|].
    by rewrite lookup_delete_ne.
Qed.

(** X4.  In any run that does not unregister [event], whatever else is
    registered, dispatched or unregistered in between and whichever calls
    raise, the list of [event] at the end is the list at the start
    followed by the entries of the successful registrations under that
    name, in the order the registrations were made. *)
Theorem registration_order_preserved (event : string) (ops : list Op)
    (w : World) :
  Forall (fun o => o <> OpUnregister event) ops ->
  entries_of (exec outcome ops w) event
  = entries_of w event ++ omap (registration event) ops.
Proof.
  intros Hops. revert w.
  induction Hops as [|o ops Ho _ IH]; intros w.
  - simpl. by rewrite app_nil_r.
  - simpl. rewrite IH, (run_op_entries event o w Ho).
    rewrite <- app_assoc. f_equal.
    by destruct (registration event o).
Qed.

(** X10.  Retrying an unregistration that failed starts over from the
    first entry: when [unregister] has raised at some entry's teardown and
    a second [unregister] of the same event returns, the teardown
    callbacks of the entries before the failing one have been called
    twice, once in each attempt, and the second attempt has called every
    teardown of the event before removing the key. *)
Theorem unregister_retry_repeats_teardowns (event : string) (w : World)
    (l : list Entry) (exn : Exn) :
  events w !! event = Some l ->
  fst (unregister outcome event w) = Raise exn ->
  let w1 := snd (unregister outcome event w) in
  fst (unregister outcome event w1) = Ok tt ->
  let w2 := snd (unregister outcome event w1) in
  events w2 = delete event (events w) /\
  exists l1 x cb l2,
    l = l1 ++ x :: l2 /\ snd x = Some cb /\
    calls w2
    = calls w ++ (teardown_calls l1 ++ [mkCall cb []]) ++ teardown_calls l.
Proof.
  intros H. cbv zeta. rewrite (unregister_known outcome _ _ _ H).
  pose proof (callback_loop outcome teardown_call l w) as Hloop.
  cbv zeta in Hloop. destruct Hloop as [Hev Hcalls].
  unfold bind.
  destruct (for_each l (maybe_call outcome teardown_call) w)
    as [[[]|exn'] w1] eqn:Hrun; simpl in *.
  { unfold delitem. by rewrite Hev, H. }
  intros _.
  destruct Hcalls as (l1 & x & l2 & c & Hl & Hfx & Hcalls & _).
  assert (H1 : events w1 !! event = Some l) by (by rewrite Hev).
  rewrite (unregister_known outcome _ _ _ H1).
  pose proof (callback_loop outcome teardown_call l w1) as Hloop1.
  cbv zeta in Hloop1. destruct Hloop1 as [Hev1 Hcalls1].
  unfold bind.
  destruct (for_each l (maybe_call outcome teardown_call) w1)
    as [[[]|exn1] w2] eqn:Hrun1; simpl in *; [|done].
  intros _. unfold delitem. rewrite Hev1, H1. simpl.
  split; [by rewrite Hev|].
  unfold teardown_call in Hfx.
  destruct (snd x) as [cb|] eqn:Hsnd; [|done].
  injection Hfx as <-.
  exists l1, x, cb, l2. split; [done|]. split; [done|].
  rewrite Hcalls1, Hcalls. by rewrite <- !app_assoc.
Qed.

End Composition.

(* ------------------------------------------------------------------ *)
(** ** The singleton: construction, uniqueness, shared registrations *)

Lemma constructor_first (p : Process) :
  __instance p = None ->
  EventDispatcher p
  = (Ok (length (heap p)),
     mkProcess (Some (length (heap p)))
               (<[length (heap p) := Some ∅]> (heap p ++ [None]))).
Proof.
  intros H.
  unfold EventDispatcher, __init__, bind, read_instance, new, write_events,
    write_instance.
  simpl. by rewrite H.
Qed.

Lemma fresh_slot_assigned (h : list (option (gmap string (list Entry))))
    (m : gmap string (list Entry)) :
  <[length h := Some m]> (h ++ [None]) !! length h = Some (Some m).
Proof. apply list_lookup_insert_eq. rewrite length_app. simpl. lia. Qed.

(** X7.  Direct construction while no singleton exists does not raise: it
    allocates a new object, gives it an empty mapping and makes it the
    singleton.  [get_instance] then returns that object without creating
    anything, and a second direct construction raises
    [InstantiationError]. *)
Theorem first_construction_becomes_singleton (p : Process) :
  __instance p = None ->
  exists p',
    EventDispatcher p = (Ok (length (heap p)), p') /\
    __instance p' = Some (length (heap p)) /\
    heap p' !! length (heap p) = Some (Some ∅) /\
    get_instance p' = (Ok (Some (length (heap p))), p') /\
    fst (EventDispatcher p')
    = Raise (InstantiationError "This class is a singleton!").
Proof.
  intros H. eexists. rewrite (constructor_first p H).
  split; [done|]. split; [done|].
  split; [apply fresh_slot_assigned|].
  split; [by apply get_instance_existing|].
  by erewrite constructor_fails.
Qed.

(** One class call keeps the assigned slots with the class attribute. *)
Lemma run_class_call_sole_instance (c : ClassCall) (p : Process) :
  sole_instance p -> sole_instance (snd (run_class_call c p)).
Proof.
  intros Hsole.
  assert (Hfirst : __instance p = None ->
            sole_instance
              (mkProcess (Some (length (heap p)))
                 (<[length (heap p) := Some ∅]> (heap p ++ [None])))).
  { intros Hnone l m. simpl.
    destruct (decide (l = length (heap p))) as [->|Hne]; [done|].
    rewrite list_lookup_insert_ne by done.
    intros Hl. apply lookup_app_Some in Hl as [Hl|[Hge Hl]].
    - apply Hsole in Hl. congruence.
    - destruct (l - length (heap p)) as [|k] eqn:Hk; [lia|done]. }
  destruct (__instance p) as [l0|] eqn:Hinst; destruct c; simpl.
  - by rewrite (get_instance_existing p l0 Hinst).
  - unfold bind. rewrite (constructor_fails p l0 Hinst). simpl.
    intros l m. simpl. intros Hl.
    apply lookup_app_Some in Hl as [Hl|[Hge Hl]].
    + apply Hsole in Hl. congruence.
    + by destruct (l - length (heap p)) as [|k].
  - rewrite (get_instance_first p Hinst). by apply Hfirst.
  - unfold bind. rewrite (constructor_first p Hinst). by apply Hfirst.
Qed.

Lemma run_class_calls_sole_instance (cs : list ClassCall) (p : Process) :
  sole_instance p -> sole_instance (snd (run_class_calls cs p)).
Proof.
  revert p. induction cs as [|c cs IH]; intros p Hsole; [done|].
  simpl. pose proof (run_class_call_sole_instance c p Hsole) as Hstep.
  destruct (run_class_call c p) as [r p1]. simpl in Hstep.
  specialize (IH p1 Hstep).
  by destruct (run_class_calls cs p1) as [rs p2].
Qed.

(** X8.  Starting from a process in which only the object the class
    attribute points at has its mapping assigned (the freshly started
    process is one), after any sequence of [get_instance] and constructor
    calls there is at most one allocated object whose mapping has been
    assigned, and it is the one the class attribute points at: the objects
    allocated by failed constructions never get a mapping. *)
Theorem at_most_one_instance (cs : list ClassCall) (p : Process)
    (l1 l2 : nat) (m1 m2 : gmap string (list Entry)) :
  sole_instance p ->
  let p' := snd (run_class_calls cs p) in
  heap p' !! l1 = Some (Some m1) ->
  heap p' !! l2 = Some (Some m2) ->
  l1 = l2 /\ __instance p' = Some l1.
Proof.
  intros Hsole p' H1 H2.
  pose proof (run_class_calls_sole_instance cs p Hsole) as Hsole'.
  pose proof (Hsole' l1 m1 H1) as E1.
  pose proof (Hsole' l2 m2 H2) as E2.
  split; [congruence | done].
Qed.

Lemma call_method_assigned {A} (l : nat) (name : string) (body : M World A)
    (s : Program) (m : gmap string (list Entry)) :
  heap (process s) !! l = Some (Some m) ->
  call_method (Some l) name body s
  = (fst (body (mkWorld m (log s))),
     mkProgram
       (mkProcess (__instance (process s))
          (<[l := Some (events (snd (body (mkWorld m (log s)))))]>
             (heap (process s))))
       (calls (snd (body (mkWorld m (log s)))))).
Proof.
  intros H. unfold call_method. rewrite H.
  by destruct (body (mkWorld m (log s))).
Qed.

(** From a process whose singleton has its mapping [m]: a shared
    registration followed by a shared query. *)
Lemma shared_round_trip_from (event : string) (obj : PyObject)
    (method : option string) (p : Process) (lg : list Call) (l : nat)
    (m : gmap string (list Entry)) :
  __instance p = Some l ->
  heap p !! l = Some (Some m) ->
  hasattr obj (run_or method) = true ->
  fst ((call_method (Some l) "register" (register event obj method) ;;
        shared_get_subscribers event) (mkProgram p lg))
  = Ok (map fst (default [] (m !! event))
        ++ [BoundMethod (oid obj) (run_or method)]).
Proof.
  intros Hinst Hslot Hrun. unfold bind at 1.
  rewrite (call_method_assigned l _ _ _ m) by done.
  rewrite register_succeeds by done. simpl.
  unfold shared_get_subscribers, bind, on_class. simpl.
  erewrite get_instance_existing by (simpl; exact Hinst).
  erewrite call_method_assigned.
  2:{ simpl. apply list_lookup_insert_eq. by eapply lookup_lt_Some. }
  unfold get_subscribers, bind, getitem. simpl.
  rewrite lookup_insert_eq. simpl. by rewrite map_app.
Qed.

(** X9.  Registrations made through one [get_instance()] are seen through
    the next: whether the singleton already exists or is created by the
    first call, registering through [get_instance()] and then querying
    through [get_instance()] returns the notify callbacks the singleton
    already had for the event, followed by the new bound method. *)
Theorem singleton_shares_registrations (event : string) (obj : PyObject)
    (method : option string) (s : Program) :
  ready (process s) ->
  hasattr obj (run_or method) = true ->
  fst ((shared_register event obj method ;; shared_get_subscribers event) s)
  = Ok (map fst (default [] (instance_events (process s) !! event))
        ++ [BoundMethod (oid obj) (run_or method)]).
Proof.
  intros Hready Hrun. destruct s as [p lg]. simpl in *.
  unfold ready in Hready. unfold instance_events.
  unfold shared_register.
  destruct (__instance p) as [l|] eqn:Hinst.
  - destruct Hready as [m Hslot]. rewrite Hslot.
    rewrite <- (shared_round_trip_from event obj method p lg l m)
      by done.
    unfold bind, on_class. simpl.
    by rewrite (get_instance_existing p l Hinst).
  - set (p1 := mkProcess (Some (length (heap p)))
                 (<[length (heap p) := Some ∅]> (heap p ++ [None]))).
    rewrite <- (shared_round_trip_from event obj method p1 lg
                  (length (heap p)) ∅);
      [|done|apply fresh_slot_assigned|done].
    unfold bind, on_class. simpl.
    by rewrite (get_instance_first p Hinst).
Qed.

(* ------------------------------------------------------------------ *)
(** ** The composition properties at concrete inputs *)

Lemma register_then_get_subscribers_witness :
  hasattr builder (run_or (Some "handle")) = true /\
  fst ((register "build.done" builder (Some "handle") ;;
        get_subscribers "build.done") busy_world)
  = Ok [BoundMethod 1 "run"; BoundMethod 2 "handle"; BoundMethod 3 "run";
        BoundMethod 2 "handle"].
Proof.
  split; [reflexivity|].
  exact (register_then_get_subscribers "build.done" builder (Some "handle")
           busy_world eq_refl).
Defined.

Lemma register_outcome_witness :
  hasattr mute (run_or None) = false /\
  is_Some (events busy_world !! "build.done") /\
  snd (register "build.done" mute None busy_world) = busy_world.
Proof.
  split; [reflexivity|]. split; [by eexists|].
  destruct (register_outcome "build.done" mute None busy_world)
    as (_ & Hfails & _).
  destruct (Hfails eq_refl) as (_ & _ & Hsame).
  apply Hsame. by eexists.
Defined.

Lemma empty_list_event_witness :
  let w := mkWorld (<["build.done" := []]> ∅) [] in
  events w !! "build.done" = Some [] /\
  get_subscribers "build.done" w = (Ok [], w).
Proof.
  cbv zeta.
  assert (Hkey : events (mkWorld (<["build.done" := []]> ∅) [])
                 !! "build.done" = Some []) by reflexivity.
  split; [exact Hkey|].
  destruct (empty_list_event always_returns "build.done" status_ok
              (mkWorld (<["build.done" := []]> ∅) []) Hkey)
    as (Hquery & _).
  exact Hquery.
Defined.

Lemma registration_order_preserved_witness :
  let ops := [OpRegister "build.done" logger None;
              OpRegister "deploy" cache None;
              OpDispatch "build.done" status_ok;
              OpUnregister "deploy";
              OpRegister "build.done" mute None;
              OpRegister "build.done" builder (Some "handle")] in
  Forall (fun o => o <> OpUnregister "build.done") ops /\
  entries_of (exec always_returns ops initial_world) "build.done"
  = [(BoundMethod 1 "run", None);
     (BoundMethod 2 "handle", Some (BoundMethod 2 "unregister"))].
Proof.
  cbv zeta.
  assert (Hops : Forall (fun o => o <> OpUnregister "build.done")
                   [OpRegister "build.done" logger None;
                    OpRegister "deploy" cache None;
                    OpDispatch "build.done" status_ok;
                    OpUnregister "deploy";
                    OpRegister "build.done" mute None;
                    OpRegister "build.done" builder (Some "handle")])
    by (repeat constructor; discriminate).
  split; [exact Hops|].
  exact (registration_order_preserved always_returns "build.done" _
           initial_world Hops).
Defined.

Lemma after_unregister_witness :
  fst (unregister always_returns "build.done" busy_world) = Ok tt /\
  events
    (snd (register "build.done" logger None
            (snd (unregister always_returns "build.done" busy_world))))
  !! "build.done"
  = Some [(BoundMethod 1 "run", None)].
Proof.
  assert (Hok : fst (unregister always_returns "build.done" busy_world)
                = Ok tt) by reflexivity.
  split; [exact Hok|].
  destruct (after_unregister always_returns "build.done" status_ok logger
              None busy_world Hok) as (_ & _ & Hfresh).
  apply Hfresh. reflexivity.
Defined.

Lemma register_unregister_round_trip_witness :
  events busy_world !! "release" = None /\
  hasattr builder (run_or (Some "handle")) = true /\
  (register "release" builder (Some "handle") ;;
   unregister always_returns "release") busy_world
  = (Ok tt,
     mkWorld (events busy_world) [mkCall (BoundMethod 2 "unregister") []]).
Proof.
  assert (Hnew : events busy_world !! "release" = None) by reflexivity.
  split; [exact Hnew|]. split; [reflexivity|].
  apply (register_unregister_round_trip always_returns "release" builder
           (Some "handle") busy_world Hnew); reflexivity.
Defined.

Lemma first_construction_becomes_singleton_witness :
  __instance (mkProcess None []) = None /\
  exists p',
    EventDispatcher (mkProcess None []) = (Ok 0, p') /\
    __instance p' = Some 0.
Proof.
  split; [reflexivity|].
  destruct (first_construction_becomes_singleton (mkProcess None [])
              eq_refl) as (p' & Hnew & Hinst & _).
  exists p'. split; [exact Hnew | exact Hinst].
Defined.

Lemma at_most_one_instance_witness :
  let cs := [CallConstructor; CallConstructor; CallGetInstance;
             CallConstructor] in
  sole_instance (mkProcess None []) /\
  heap (snd (run_class_calls cs (mkProcess None []))) !! 0
  = Some (Some ∅) /\
  __instance (snd (run_class_calls cs (mkProcess None []))) = Some 0.
Proof.
  cbv zeta.
  assert (Hsole : sole_instance (mkProcess None [])).
  { intros l m H. simpl in H. rewrite lookup_nil in H. discriminate H. }
  split; [exact Hsole|]. split; [reflexivity|].
  destruct (at_most_one_instance
              [CallConstructor; CallConstructor; CallGetInstance;
               CallConstructor]
              (mkProcess None []) 0 0 ∅ ∅ Hsole eq_refl eq_refl)
    as [_ Hinst].
  exact Hinst.
Defined.

Lemma singleton_shares_registrations_witness :
  ready (mkProcess None []) /\
  hasattr logger (run_or None) = true /\
  fst ((shared_register "build.done" logger None ;;
        shared_get_subscribers "build.done")
         (mkProgram (mkProcess None []) []))
  = Ok [BoundMethod 1 "run"].
Proof.
  split; [exact I|]. split; [reflexivity|].
  exact (singleton_shares_registrations "build.done" logger None
           (mkProgram (mkProcess None []) []) I eq_refl).
Defined.

Lemma unregister_retry_repeats_teardowns_witness :
  let w1 := snd (unregister fails_second_call "build.done" busy_world) in
  let w2 := snd (unregister fails_second_call "build.done" w1) in
  fst (unregister fails_second_call "build.done" busy_world)
  = Raise (CallbackError 2) /\
  fst (unregister fails_second_call "build.done" w1) = Ok tt /\
  calls w2 = [mkCall (BoundMethod 2 "unregister") [];
              mkCall (BoundMethod 3 "unregister") [];
              mkCall (BoundMethod 2 "unregister") [];
              mkCall (BoundMethod 3 "unregister") []] /\
  events w2 = delete "build.done" (events busy_world).
Proof.
  cbv zeta.
  assert (Hkey : events busy_world !! "build.done"
                 = Some [(BoundMethod 1 "run", None);
                         (BoundMethod 2 "handle",
                          Some (BoundMethod 2 "unregister"));
                         (BoundMethod 3 "run",
                          Some (BoundMethod 3 "unregister"))])
    by reflexivity.
  assert (Hfails : fst (unregister fails_second_call "build.done" busy_world)
                   = Raise (CallbackError 2)) by reflexivity.
  assert (Hretry : fst (unregister fails_second_call "build.done"
                          (snd (unregister fails_second_call "build.done"
                                  busy_world))) = Ok tt) by reflexivity.
  split; [exact Hfails|]. split; [exact Hretry|]. split; [reflexivity|].
  destruct (unregister_retry_repeats_teardowns fails_second_call
              "build.done" busy_world _ _ Hkey Hfails Hretry) as [Hgone _].
  exact Hgone.
Defined.

(** A subscriber that has both an attribute named by the empty string and
    [run]: registering it with the empty string binds [run]. *)
Lemma register_empty_method_is_default_witness :
  hasattr (mkObject 5 [""; "run"]) "run" = true /\
  register "build.done" (mkObject 5 [""; "run"]) (Some "") initial_world
  = (Ok tt,
     mkWorld (<["build.done" := [(BoundMethod 5 "run", None)]]> ∅) []).
Proof.
  split; [reflexivity|].
  destruct (register_empty_method_is_default "build.done"
              (mkObject 5 [""; "run"]) initial_world) as (_ & Hbinds & _).
  rewrite Hbinds; reflexivity.
Defined.
